(** * drift: the simulation loop, its object lifecycle and its scoring state machine

    A shallow embedding of the game's JavaScript sources:
    - config.js    the tunables ([CONFIG]) and, below them in the same file,
                   the physics functions the other modules import from
                   ./physics.js: [getCarMaxSpeed], [getDampingFactor],
                   [updateCarPhysics];
    - controls.js  the state of the keys;
    - scene.js     [createObstacles], [createBoundaryBox], [createScene];
    - the game module (imported as ./game.js): [animate], [gameOver],
                   [restartGame], [resetGame], [spawnCoin],
                   [startCoinSpawning], [collectCoin], [levelUp];
    - the helper module: [gameIsLoading].

    JavaScript numbers are kept abstract behind the interface [JSNumber] and
    interpreted twice: as IEEE-754 binary64 values (Rocq's primitive floats,
    which is what the browser computes) and as real numbers (the arithmetic
    the formulas are written for).  Integer counters ([points], [level],
    array lengths) are [Z] and [nat]. *)

From Stdlib Require Import ZArith QArith Qreals Reals Lra Lia.
From Stdlib Require Floats Uint63.
From stdpp Require Import base option list gmap.

Set Default Proof Using "Type".

(** ** JavaScript numbers *)

Class JSNumber (num : Type) := {
  nadd : num → num → num;
  nsub : num → num → num;
  nmul : num → num → num;
  ndiv : num → num → num;
  nneg : num → num;
  nsqrt : num → num;          (* Math.sqrt *)
  nabs : num → num;           (* Math.abs *)
  nmin : num → num → num;     (* Math.min *)
  nlt : num → num → bool;     (* a < b *)
  of_Z : Z → num;             (* an integer-valued number *)
}.

Declare Scope js_scope.
Delimit Scope js_scope with J.
Infix "+" := nadd : js_scope.
Infix "-" := nsub : js_scope.
Infix "*" := nmul : js_scope.
Infix "/" := ndiv : js_scope.
Notation "- x" := (nneg x) : js_scope.
Notation "a <? b" := (nlt a b) : js_scope.
Notation "a >? b" := (nlt b a) : js_scope.

(** A decimal literal of the source, given as the fraction it denotes:
  [0.25] is [lit (1#4)].  On binary64 the quotient of two small integers is
  correctly rounded, which is the value the literal parses to. *)
Definition lit {num : Type} `{JSNumber num} (q : Q) : num :=
  (of_Z (Qnum q) / of_Z (Zpos (Qden q)))%J.

(** *** binary64 *)

Module F64.
Definition float := PrimFloat.float.

Definition of_Z (z : Z) : float :=
  match z with
  | Zneg p => PrimFloat.opp (PrimFloat.of_uint63 (Uint63.of_Z (Zpos p)))
  | _ => PrimFloat.of_uint63 (Uint63.of_Z z)
  end.

(* Math.min: NaN if either argument is NaN, else the smaller one (the sign
   of a zero result aside). *)
Definition min (a b : float) : float :=
  if PrimFloat.is_nan a then a
  else if PrimFloat.is_nan b then b
  else if PrimFloat.ltb b a then b else a.

(* Number.isFinite *)
Definition is_finite (a : float) : bool :=
  negb (PrimFloat.is_nan a) && negb (PrimFloat.is_infinity a).
End F64.

#[export] Instance float_number : JSNumber F64.float := {|
  nadd := PrimFloat.add;
  nsub := PrimFloat.sub;
  nmul := PrimFloat.mul;
  ndiv := PrimFloat.div;
  nneg := PrimFloat.opp;
  nsqrt := PrimFloat.sqrt;
  nabs := PrimFloat.abs;
  nmin := F64.min;
  nlt := PrimFloat.ltb;
  of_Z := F64.of_Z;
|}.

(** *** real numbers *)

Definition Rltb (a b : R) : bool := if Rlt_dec a b then true else false.

#[export] Instance real_number : JSNumber R := {|
  nadd := Rplus;
  nsub := Rminus;
  nmul := Rmult;
  ndiv := Rdiv;
  nneg := Ropp;
  nsqrt := sqrt;
  nabs := Rabs;
  nmin := Rmin;
  nlt := Rltb;
  of_Z := IZR;
|}.

(** ** THREE.Vector3 and THREE.Quaternion (the operations the game calls) *)

Section Vectors.
Context {num : Type} `{JSNumber num}.

Record Vec3 := mkVec3 { vx : num; vy : num; vz : num }.
Record Quat := mkQuat { qx : num; qy : num; qz : num; qw : num }.

Definition zero : num := of_Z 0.

(* new THREE.Vector3() *)
Definition vec0 : Vec3 := mkVec3 zero zero zero.

(* Vector3.length *)
Definition vlength (v : Vec3) : num :=
  nsqrt (vx v * vx v + vy v * vy v + vz v * vz v)%J.

(* Vector3.add / sub / multiplyScalar / dot *)
Definition vadd (a b : Vec3) : Vec3 :=
  mkVec3 (vx a + vx b)%J (vy a + vy b)%J (vz a + vz b)%J.
Definition vsub (a b : Vec3) : Vec3 :=
  mkVec3 (vx a - vx b)%J (vy a - vy b)%J (vz a - vz b)%J.
Definition multiplyScalar (a : Vec3) (s : num) : Vec3 :=
  mkVec3 (vx a * s)%J (vy a * s)%J (vz a * s)%J.
Definition vdot (a b : Vec3) : num :=
  (vx a * vx b + vy a * vy b + vz a * vz b)%J.

(* Vector3.applyQuaternion, three.js r114 *)
Definition applyQuaternion (v : Vec3) (q : Quat) : Vec3 :=
  let x := vx v in let y := vy v in let z := vz v in
  let ix := (qw q * x + qy q * z - qz q * y)%J in
  let iy := (qw q * y + qz q * x - qx q * z)%J in
  let iz := (qw q * z + qx q * y - qy q * x)%J in
  let iw := (- qx q * x - qy q * y - qz q * z)%J in
  mkVec3 (ix * qw q + iw * - qx q + iy * - qz q - iz * - qy q)%J
         (iy * qw q + iw * - qy q + iz * - qx q - ix * - qz q)%J
         (iz * qw q + iw * - qz q + ix * - qy q - iy * - qx q)%J.
End Vectors.

Arguments Vec3 num : clear implicits.
Arguments Quat num : clear implicits.

(** ** config.js *)

Record Config (num : Type) := mkConfig {
  (* CONFIG.physics *)
  friction : num;
  rollingResistance : num;
  restitution : num;
  (* CONFIG.car *)
  maxSpeed : num;
  engineForceMagnitude : num;
  reverseForceMagnitude : num;
  steeringFactor : num;
  handbrakeDamping : num;
  minDampening : num;
  maxDampening : num;
  (* CONFIG.coins *)
  spawnInterval : Z;
  value : Z;
  radius : num;
  height : num;
  (* CONFIG.level *)
  pointsToAdvance : Z;
  boxIncreasePerLevel : Z;
  maxLevel : Z;
  coinBaseCount : Z;
  (* CONFIG.environment *)
  groundSize : num;
}.

Arguments friction {num}.
Arguments rollingResistance {num}.
Arguments restitution {num}.
Arguments maxSpeed {num}.
Arguments engineForceMagnitude {num}.
Arguments reverseForceMagnitude {num}.
Arguments steeringFactor {num}.
Arguments handbrakeDamping {num}.
Arguments minDampening {num}.
Arguments maxDampening {num}.
Arguments spawnInterval {num}.
Arguments value {num}.
Arguments radius {num}.
Arguments height {num}.
Arguments pointsToAdvance {num}.
Arguments boxIncreasePerLevel {num}.
Arguments maxLevel {num}.
Arguments coinBaseCount {num}.
Arguments groundSize {num}.

(** The values written in config.js.  [CONFIG.game.isOver] and
  [CONFIG.game.isFalling], the two entries the game itself mutates, live in
  the game state below. *)
Definition CONFIG {num : Type} `{JSNumber num} : Config num := {|
  friction := lit (3#4);
  rollingResistance := lit (3#200);
  restitution := lit (1#5);
  maxSpeed := of_Z 25;
  engineForceMagnitude := of_Z 6;
  reverseForceMagnitude := of_Z (-4);
  steeringFactor := lit (1#5);
  handbrakeDamping := lit (1#2);
  minDampening := lit (1#2);
  maxDampening := lit (3#2);
  spawnInterval := 3000;
  value := 10;
  radius := lit (1#2);
  height := lit (1#10);
  pointsToAdvance := 100;
  boxIncreasePerLevel := 10;
  maxLevel := 10;
  coinBaseCount := 10;
  groundSize := of_Z 100;
|}.

(** ** controls.js *)

Record Controls := mkControls {
  forward : bool;
  reverse : bool;
  steer_left : bool;     (* controls.left *)
  steer_right : bool;    (* controls.right *)
  handbrake : bool;
}.

(** ** physics.js *)

(** What the game asks of the car's rigid body.  The calls are recorded in
  order; of their effects the model keeps the two that the engine documents
  as immediate: the force accumulator ([addForce] adds to it, [resetForces]
  zeroes it) and the linear velocity written by [setLinvel].  Impulses only
  show in the readings of the next [world.step]. *)
Inductive BodyCall (num : Type) :=
| AddForce (f : Vec3 num)
| SetLinvel (v : Vec3 num)
| ResetForces
| ApplyTorqueImpulse (t : Vec3 num)
| ApplyImpulse (i : Vec3 num).

Arguments AddForce {num}.
Arguments SetLinvel {num}.
Arguments ResetForces {num}.
Arguments ApplyTorqueImpulse {num}.
Arguments ApplyImpulse {num}.

Record RigidBody (num : Type) := mkBody {
  rb_handle : nat;
  rb_translation : Vec3 num;   (* translation() *)
  rb_linvel : Vec3 num;        (* linvel() *)
  rb_rotation : Quat num;      (* rotation() *)
  rb_force : Vec3 num;         (* accumulated user force *)
  rb_calls : list (BodyCall num);
}.

Arguments rb_handle {num}.
Arguments rb_translation {num}.
Arguments rb_linvel {num}.
Arguments rb_rotation {num}.
Arguments rb_force {num}.
Arguments rb_calls {num}.

Section Physics.
Context {num : Type} `{JSNumber num}.
Variable cfg : Config num.

Definition addForce (f : Vec3 num) (b : RigidBody num) : RigidBody num :=
  mkBody num (rb_handle b) (rb_translation b) (rb_linvel b) (rb_rotation b)
         (vadd (rb_force b) f) (rb_calls b ++ [AddForce f]).

Definition resetForces (b : RigidBody num) : RigidBody num :=
  mkBody num (rb_handle b) (rb_translation b) (rb_linvel b) (rb_rotation b)
         vec0 (rb_calls b ++ [ResetForces]).

Definition setLinvel (v : Vec3 num) (b : RigidBody num) : RigidBody num :=
  mkBody num (rb_handle b) (rb_translation b) v (rb_rotation b)
         (rb_force b) (rb_calls b ++ [SetLinvel v]).

Definition applyTorqueImpulse (t : Vec3 num) (b : RigidBody num) : RigidBody num :=
  mkBody num (rb_handle b) (rb_translation b) (rb_linvel b) (rb_rotation b)
         (rb_force b) (rb_calls b ++ [ApplyTorqueImpulse t]).

Definition applyImpulse (i : Vec3 num) (b : RigidBody num) : RigidBody num :=
  mkBody num (rb_handle b) (rb_translation b) (rb_linvel b) (rb_rotation b)
         (rb_force b) (rb_calls b ++ [ApplyImpulse i]).

Definition getCarMaxSpeed (level : Z) : num :=
  let base := lit 1 in
  let step := lit (1#4) in
  let cap := lit 2 in
  let multiplier := nmin (base + (of_Z level - of_Z 1) * step)%J cap in
  (maxSpeed cfg * multiplier)%J.

Definition getDampingFactor (speed : num) : num :=
  let minDamp := minDampening cfg in
  let maxDamp := maxDampening cfg in
  let t := nmin (speed / maxSpeed cfg)%J (of_Z 1) in
  (minDamp + (maxDamp - minDamp) * t)%J.

(** The force handed to [addForce] in the handbrake branch. *)
Definition handbrakeForceVec (linVel : Vec3 num) (speed : num) : Vec3 num :=
  let handbrakeForce := (- handbrakeDamping cfg * lit (1#5))%J in
  mkVec3 (handbrakeForce * (vx linVel / speed))%J
         zero
         (handbrakeForce * (vz linVel / speed))%J.

(** The drive vector [force] after the if / else-if chain. *)
Definition driveForce (controls : Controls) (forwardDir : Vec3 num)
    (absVel maxSpeed : num) : Vec3 num :=
  if handbrake controls then vec0
  else if forward controls && (absVel <? maxSpeed)%J then
    vadd vec0 (multiplyScalar forwardDir (engineForceMagnitude cfg))
  else if reverse controls && (absVel <? maxSpeed)%J then
    vadd vec0 (multiplyScalar forwardDir (reverseForceMagnitude cfg))
  else vec0.

(** [updateCarPhysics(carBody, carMesh, level, controls, tireTracksSystem)].
    [isOver] and [isFalling] are [CONFIG.game.isOver] and
    [CONFIG.game.isFalling].  The tyre-track trail the function also feeds
    is drawing only and is left out. *)
Definition updateCarPhysics (isOver isFalling : bool)
    (carBody : option (RigidBody num)) (level : Z) (controls : Controls)
    : option (RigidBody num) :=
  match carBody with
  | None => None
  | Some body =>
    if isOver && negb isFalling then Some body else
    let lin := rb_linvel body in
    let linVel := rb_linvel body in
    let linVelVec := mkVec3 (vx lin) zero (vz lin) in
    let absVel := vlength linVelVec in
    let quat := rb_rotation body in
    let forwardDir := applyQuaternion (mkVec3 zero zero (of_Z (-1))) quat in
    let maxSpeed := getCarMaxSpeed level in
    let speed := nsqrt (vx linVel * vx linVel + vz linVel * vz linVel)%J in
    let body :=
      if handbrake controls then
        let body := addForce (handbrakeForceVec linVel speed) body in
        if (absVel <? lit (1#5))%J then setLinvel vec0 body else body
      else body in
    let force := driveForce controls forwardDir absVel maxSpeed in
    let body :=
      if (vlength force >? zero)%J then
        let force := multiplyScalar force (of_Z 1 - rollingResistance cfg)%J in
        addForce (mkVec3 (vx force) (vy force) (vz force)) body
      else resetForces body in
    let body :=
      if (steer_left controls || steer_right controls) && (speed >? lit (1#5))%J then
        let steer := ((if steer_left controls then of_Z 1 else of_Z 0)
                      - (if steer_right controls then of_Z 1 else of_Z 0))%J in
        let torque := (steer * steeringFactor cfg * speed)%J in
        applyTorqueImpulse (mkVec3 zero torque zero) body
      else body in
    let forwardSpeed := vdot forwardDir (mkVec3 (vx linVel) zero (vz linVel)) in
    let lateral := vsub (mkVec3 (vx linVel) zero (vz linVel))
                        (multiplyScalar forwardDir forwardSpeed) in
    let damp := if handbrake controls then handbrakeDamping cfg
                else getDampingFactor speed in
    let lateral := multiplyScalar lateral (- damp)%J in
    Some (applyImpulse (mkVec3 (vx lateral) zero (vz lateral)) body)
  end.
End Physics.

(** ** The game's objects and its state

    Arrays of game.js hold references to JavaScript objects; the objects
    themselves sit in [heap], so that a flag set through one reference is seen
    through every other, and [indexOf] compares references.

    Not modelled: DOM text and style updates, rendering, the camera, the
    tyre-track trail, asynchronous model loading and the debug overlay
    ([CONFIG.debug.physics.enabled] is [false] in config.js). *)

Inductive EntityType := Ground | Car | Obstacle | Coin.

#[export] Instance EntityType_eq_dec : EqDecision EntityType.
Proof. solve_decision. Defined.

(** An object literal of the registries.  A field the literal does not have is
    [None] (it reads as [undefined]). *)
Record Obj := mkObj {
  o_mesh : nat;
  o_body : nat;
  o_collider : option nat;        (* the collider's handle *)
  o_sensor : option nat;
  o_type : option EntityType;
  o_collected : option bool;
}.

Record BodyInfo (num : Type) := mkBodyInfo {
  bi_fixed : bool;                (* RigidBodyDesc.fixed() / .dynamic() *)
  bi_translation : Vec3 num;
}.
Arguments mkBodyInfo {num}.
Arguments bi_fixed {num}.
Arguments bi_translation {num}.

Record ColliderInfo := mkCollider {
  ci_parent : nat;                (* the body it is attached to *)
  ci_sensor : bool;
  ci_events : bool;               (* ActiveEvents.COLLISION_EVENTS *)
}.

(** A callback waiting in the browser's timer queue: the zero-delay
    continuation [collectCoin] schedules, closed over its coin. *)
Inductive Task := RemoveCoin (coin : nat).

(** The [isLoading] flags object. *)
Record Flags := mkFlags {
  ld_car : bool;
  ld_level : bool;
  ld_obstacles : bool;
  ld_coins : bool;
}.

Inductive FlagName := f_car | f_level | f_obstacles | f_coins.

Definition set_flag_of (f : FlagName) (b : bool) (fl : Flags) : Flags :=
  match f with
  | f_car => mkFlags b (ld_level fl) (ld_obstacles fl) (ld_coins fl)
  | f_level => mkFlags (ld_car fl) b (ld_obstacles fl) (ld_coins fl)
  | f_obstacles => mkFlags (ld_car fl) (ld_level fl) b (ld_coins fl)
  | f_coins => mkFlags (ld_car fl) (ld_level fl) (ld_obstacles fl) b
  end.

(** The helper module's [gameIsLoading]. *)
Definition gameIsLoading (fl : Flags) : bool :=
  if ld_car fl || ld_level fl || ld_obstacles fl || ld_coins fl
  then true else false.

Record State (num : Type) := mkState {
  (* game.js module variables *)
  points : Z;
  level : Z;
  physicsObjects : list nat;
  coins : list nat;
  obstacleBoxes : list nat;
  coinSpawnTimer : option nat;
  restartKeyListener : option nat;
  carBody : option (RigidBody num);
  (* CONFIG.game *)
  isOver : bool;
  isFalling : bool;
  (* the objects the arrays and closures refer to *)
  heap : list Obj;
  (* the RAPIER world *)
  bodies : gmap nat (BodyInfo num);
  colliders : gmap nat ColliderInfo;
  next_body : nat;
  next_collider : nat;
  (* scene.children *)
  scene : gset nat;
  next_mesh : nat;
  (* window: live setInterval timers, pending setTimeout callbacks, keydown listeners *)
  intervals : gset nat;
  next_timer : nat;
  timeouts : list Task;
  keydown : gset nat;
  next_listener : nat;
  (* the values Math.random() will return, in order *)
  random : list num;
  (* the flags object, when a caller supplies one *)
  isLoading : Flags;
}.

Arguments points {num}.
Arguments level {num}.
Arguments physicsObjects {num}.
Arguments coins {num}.
Arguments obstacleBoxes {num}.
Arguments coinSpawnTimer {num}.
Arguments restartKeyListener {num}.
Arguments carBody {num}.
Arguments isOver {num}.
Arguments isFalling {num}.
Arguments heap {num}.
Arguments bodies {num}.
Arguments colliders {num}.
Arguments next_body {num}.
Arguments next_collider {num}.
Arguments scene {num}.
Arguments next_mesh {num}.
Arguments intervals {num}.
Arguments next_timer {num}.
Arguments timeouts {num}.
Arguments keydown {num}.
Arguments next_listener {num}.
Arguments random {num}.
Arguments isLoading {num}.
Arguments mkState {num}.

Section Setters.
Context {num : Type}.
Implicit Type st : State num.

Definition set_points (x : Z) st : State num :=
  mkState x (level st) (physicsObjects st) (coins st) (obstacleBoxes st)
  (coinSpawnTimer st) (restartKeyListener st) (carBody st) (isOver st)
  (isFalling st) (heap st) (bodies st) (colliders st) (next_body st)
  (next_collider st) (scene st) (next_mesh st) (intervals st) (next_timer st)
  (timeouts st) (keydown st) (next_listener st) (random st) (isLoading st).
Definition set_level (x : Z) st : State num :=
  mkState (points st) x (physicsObjects st) (coins st) (obstacleBoxes st)
  (coinSpawnTimer st) (restartKeyListener st) (carBody st) (isOver st)
  (isFalling st) (heap st) (bodies st) (colliders st) (next_body st)
  (next_collider st) (scene st) (next_mesh st) (intervals st) (next_timer st)
  (timeouts st) (keydown st) (next_listener st) (random st) (isLoading st).
Definition set_physicsObjects (x : list nat) st : State num :=
  mkState (points st) (level st) x (coins st) (obstacleBoxes st)
  (coinSpawnTimer st) (restartKeyListener st) (carBody st) (isOver st)
  (isFalling st) (heap st) (bodies st) (colliders st) (next_body st)
  (next_collider st) (scene st) (next_mesh st) (intervals st) (next_timer st)
  (timeouts st) (keydown st) (next_listener st) (random st) (isLoading st).
Definition set_coins (x : list nat) st : State num :=
  mkState (points st) (level st) (physicsObjects st) x (obstacleBoxes st)
  (coinSpawnTimer st) (restartKeyListener st) (carBody st) (isOver st)
  (isFalling st) (heap st) (bodies st) (colliders st) (next_body st)
  (next_collider st) (scene st) (next_mesh st) (intervals st) (next_timer st)
  (timeouts st) (keydown st) (next_listener st) (random st) (isLoading st).
Definition set_obstacleBoxes (x : list nat) st : State num :=
  mkState (points st) (level st) (physicsObjects st) (coins st) x
  (coinSpawnTimer st) (restartKeyListener st) (carBody st) (isOver st)
  (isFalling st) (heap st) (bodies st) (colliders st) (next_body st)
  (next_collider st) (scene st) (next_mesh st) (intervals st) (next_timer st)
  (timeouts st) (keydown st) (next_listener st) (random st) (isLoading st).
Definition set_coinSpawnTimer (x : option nat) st : State num :=
  mkState (points st) (level st) (physicsObjects st) (coins st) (obstacleBoxes
  st) x (restartKeyListener st) (carBody st) (isOver st) (isFalling st) (heap
  st) (bodies st) (colliders st) (next_body st) (next_collider st) (scene st)
  (next_mesh st) (intervals st) (next_timer st) (timeouts st) (keydown st)
  (next_listener st) (random st) (isLoading st).
Definition set_restartKeyListener (x : option nat) st : State num :=
  mkState (points st) (level st) (physicsObjects st) (coins st) (obstacleBoxes
  st) (coinSpawnTimer st) x (carBody st) (isOver st) (isFalling st) (heap st)
  (bodies st) (colliders st) (next_body st) (next_collider st) (scene st)
  (next_mesh st) (intervals st) (next_timer st) (timeouts st) (keydown st)
  (next_listener st) (random st) (isLoading st).
Definition set_carBody (x : option (RigidBody num)) st : State num :=
  mkState (points st) (level st) (physicsObjects st) (coins st) (obstacleBoxes
  st) (coinSpawnTimer st) (restartKeyListener st) x (isOver st) (isFalling st)
  (heap st) (bodies st) (colliders st) (next_body st) (next_collider st)
  (scene st) (next_mesh st) (intervals st) (next_timer st) (timeouts st)
  (keydown st) (next_listener st) (random st) (isLoading st).
Definition set_isOver (x : bool) st : State num :=
  mkState (points st) (level st) (physicsObjects st) (coins st) (obstacleBoxes
  st) (coinSpawnTimer st) (restartKeyListener st) (carBody st) x (isFalling
  st) (heap st) (bodies st) (colliders st) (next_body st) (next_collider st)
  (scene st) (next_mesh st) (intervals st) (next_timer st) (timeouts st)
  (keydown st) (next_listener st) (random st) (isLoading st).
Definition set_isFalling (x : bool) st : State num :=
  mkState (points st) (level st) (physicsObjects st) (coins st) (obstacleBoxes
  st) (coinSpawnTimer st) (restartKeyListener st) (carBody st) (isOver st) x
  (heap st) (bodies st) (colliders st) (next_body st) (next_collider st)
  (scene st) (next_mesh st) (intervals st) (next_timer st) (timeouts st)
  (keydown st) (next_listener st) (random st) (isLoading st).
Definition set_heap (x : list Obj) st : State num :=
  mkState (points st) (level st) (physicsObjects st) (coins st) (obstacleBoxes
  st) (coinSpawnTimer st) (restartKeyListener st) (carBody st) (isOver st)
  (isFalling st) x (bodies st) (colliders st) (next_body st) (next_collider
  st) (scene st) (next_mesh st) (intervals st) (next_timer st) (timeouts st)
  (keydown st) (next_listener st) (random st) (isLoading st).
Definition set_bodies (x : gmap nat (BodyInfo num)) st : State num :=
  mkState (points st) (level st) (physicsObjects st) (coins st) (obstacleBoxes
  st) (coinSpawnTimer st) (restartKeyListener st) (carBody st) (isOver st)
  (isFalling st) (heap st) x (colliders st) (next_body st) (next_collider st)
  (scene st) (next_mesh st) (intervals st) (next_timer st) (timeouts st)
  (keydown st) (next_listener st) (random st) (isLoading st).
Definition set_colliders (x : gmap nat ColliderInfo) st : State num :=
  mkState (points st) (level st) (physicsObjects st) (coins st) (obstacleBoxes
  st) (coinSpawnTimer st) (restartKeyListener st) (carBody st) (isOver st)
  (isFalling st) (heap st) (bodies st) x (next_body st) (next_collider st)
  (scene st) (next_mesh st) (intervals st) (next_timer st) (timeouts st)
  (keydown st) (next_listener st) (random st) (isLoading st).
Definition set_next_body (x : nat) st : State num :=
  mkState (points st) (level st) (physicsObjects st) (coins st) (obstacleBoxes
  st) (coinSpawnTimer st) (restartKeyListener st) (carBody st) (isOver st)
  (isFalling st) (heap st) (bodies st) (colliders st) x (next_collider st)
  (scene st) (next_mesh st) (intervals st) (next_timer st) (timeouts st)
  (keydown st) (next_listener st) (random st) (isLoading st).
Definition set_next_collider (x : nat) st : State num :=
  mkState (points st) (level st) (physicsObjects st) (coins st) (obstacleBoxes
  st) (coinSpawnTimer st) (restartKeyListener st) (carBody st) (isOver st)
  (isFalling st) (heap st) (bodies st) (colliders st) (next_body st) x (scene
  st) (next_mesh st) (intervals st) (next_timer st) (timeouts st) (keydown st)
  (next_listener st) (random st) (isLoading st).
Definition set_scene (x : gset nat) st : State num :=
  mkState (points st) (level st) (physicsObjects st) (coins st) (obstacleBoxes
  st) (coinSpawnTimer st) (restartKeyListener st) (carBody st) (isOver st)
  (isFalling st) (heap st) (bodies st) (colliders st) (next_body st)
  (next_collider st) x (next_mesh st) (intervals st) (next_timer st) (timeouts
  st) (keydown st) (next_listener st) (random st) (isLoading st).
Definition set_next_mesh (x : nat) st : State num :=
  mkState (points st) (level st) (physicsObjects st) (coins st) (obstacleBoxes
  st) (coinSpawnTimer st) (restartKeyListener st) (carBody st) (isOver st)
  (isFalling st) (heap st) (bodies st) (colliders st) (next_body st)
  (next_collider st) (scene st) x (intervals st) (next_timer st) (timeouts st)
  (keydown st) (next_listener st) (random st) (isLoading st).
Definition set_intervals (x : gset nat) st : State num :=
  mkState (points st) (level st) (physicsObjects st) (coins st) (obstacleBoxes
  st) (coinSpawnTimer st) (restartKeyListener st) (carBody st) (isOver st)
  (isFalling st) (heap st) (bodies st) (colliders st) (next_body st)
  (next_collider st) (scene st) (next_mesh st) x (next_timer st) (timeouts st)
  (keydown st) (next_listener st) (random st) (isLoading st).
Definition set_next_timer (x : nat) st : State num :=
  mkState (points st) (level st) (physicsObjects st) (coins st) (obstacleBoxes
  st) (coinSpawnTimer st) (restartKeyListener st) (carBody st) (isOver st)
  (isFalling st) (heap st) (bodies st) (colliders st) (next_body st)
  (next_collider st) (scene st) (next_mesh st) (intervals st) x (timeouts st)
  (keydown st) (next_listener st) (random st) (isLoading st).
Definition set_timeouts (x : list Task) st : State num :=
  mkState (points st) (level st) (physicsObjects st) (coins st) (obstacleBoxes
  st) (coinSpawnTimer st) (restartKeyListener st) (carBody st) (isOver st)
  (isFalling st) (heap st) (bodies st) (colliders st) (next_body st)
  (next_collider st) (scene st) (next_mesh st) (intervals st) (next_timer st)
  x (keydown st) (next_listener st) (random st) (isLoading st).
Definition set_keydown (x : gset nat) st : State num :=
  mkState (points st) (level st) (physicsObjects st) (coins st) (obstacleBoxes
  st) (coinSpawnTimer st) (restartKeyListener st) (carBody st) (isOver st)
  (isFalling st) (heap st) (bodies st) (colliders st) (next_body st)
  (next_collider st) (scene st) (next_mesh st) (intervals st) (next_timer st)
  (timeouts st) x (next_listener st) (random st) (isLoading st).
Definition set_next_listener (x : nat) st : State num :=
  mkState (points st) (level st) (physicsObjects st) (coins st) (obstacleBoxes
  st) (coinSpawnTimer st) (restartKeyListener st) (carBody st) (isOver st)
  (isFalling st) (heap st) (bodies st) (colliders st) (next_body st)
  (next_collider st) (scene st) (next_mesh st) (intervals st) (next_timer st)
  (timeouts st) (keydown st) x (random st) (isLoading st).
Definition set_random (x : list num) st : State num :=
  mkState (points st) (level st) (physicsObjects st) (coins st) (obstacleBoxes
  st) (coinSpawnTimer st) (restartKeyListener st) (carBody st) (isOver st)
  (isFalling st) (heap st) (bodies st) (colliders st) (next_body st)
  (next_collider st) (scene st) (next_mesh st) (intervals st) (next_timer st)
  (timeouts st) (keydown st) (next_listener st) x (isLoading st).
Definition set_isLoading (x : Flags) st : State num :=
  mkState (points st) (level st) (physicsObjects st) (coins st) (obstacleBoxes
  st) (coinSpawnTimer st) (restartKeyListener st) (carBody st) (isOver st)
  (isFalling st) (heap st) (bodies st) (colliders st) (next_body st)
  (next_collider st) (scene st) (next_mesh st) (intervals st) (next_timer st)
  (timeouts st) (keydown st) (next_listener st) (random st) x.
End Setters.

(** ** Running JavaScript: results, exceptions and the game monad *)

Inductive Error :=
  | TypeError_read_of_undefined      (* reading a property of undefined *)
  | TypeError_write_on_primitive.    (* strict mode: creating a property on a number *)

(** A call returns, throws (the mutations made so far stay), or asks
    [Math.random] for more values than the run was given. *)
Inductive Res (S A : Type) :=
  | Ok (a : A) (s : S)
  | Throw (e : Error) (s : S)
  | Starved (s : S).
Arguments Ok {S A}.
Arguments Throw {S A}.
Arguments Starved {S A}.

Definition state_of {S A : Type} (r : Res S A) : S :=
  match r with Ok _ s | Throw _ s | Starved s => s end.

Definition JS (num A : Type) : Type := State num → Res (State num) A.

#[export] Instance JS_ret {num : Type} : MRet (JS num) :=
  λ A a st, Ok a st.

#[export] Instance JS_bind {num : Type} : MBind (JS num) :=
  λ A B f m st,
    match m st with
    | Ok a st' => f a st'
    | Throw e st' => Throw e st'
    | Starved st' => Starved st'
    end.

(** A value as a mistyped call can pass it: the modules are ES modules, hence
    strict, and arguments are bound by position. *)
Inductive JSVal :=
  | VUndefined
  | VNumber (z : Z)
  | VNamespace        (* the RAPIER module object *)
  | VFlags.           (* the isLoading flags object *)

Section Runtime.
Context {num : Type} `{JSNumber num}.
Local Abbreviation M := (JS num).

Definition modify (f : State num → State num) : M () :=
  λ st, Ok () (f st).

Definition throw {A : Type} (e : Error) : M A :=
  λ st, Throw e st.

(** A step that reads the variables first. *)
Definition reading {A : Type} (f : State num → M A) : M A :=
  λ st, f st st.

(** [target.flag = b] *)
Definition set_flag (target : JSVal) (f : FlagName) (b : bool) : M () :=
  match target with
  | VFlags => modify (λ st, set_isLoading (set_flag_of f b (isLoading st)) st)
  | VNamespace => mret ()
  | VNumber _ => throw TypeError_write_on_primitive
  | VUndefined => throw TypeError_read_of_undefined
  end.

(** [RAPIER.RigidBodyDesc], [RAPIER.ColliderDesc]: a member of the namespace. *)
Definition rapier_member (RAPIER : JSVal) : M () :=
  match RAPIER with
  | VNamespace => mret ()
  | _ => throw TypeError_read_of_undefined
  end.

(** [Math.random()] *)
Definition Math_random : M num :=
  λ st, match random st with
        | r :: rs => Ok r (set_random rs st)
        | [] => Starved st
        end.

(** [new THREE.Mesh(...)] (or a group, a light): a fresh visual. *)
Definition new_mesh : M nat :=
  λ st, Ok (next_mesh st) (set_next_mesh (S (next_mesh st)) st).

(** [scene.add(mesh)], [scene.remove(mesh)] *)
Definition scene_add (mesh : nat) : M () :=
  modify (λ st, set_scene ({[mesh]} ∪ scene st) st).
Definition scene_remove (mesh : nat) : M () :=
  modify (λ st, set_scene (scene st ∖ {[mesh]}) st).

(** [world.createRigidBody(desc)] *)
Definition createRigidBody (fixed : bool) (at_ : Vec3 num) : M nat :=
  λ st, let h := next_body st in
        Ok h (set_next_body (S h)
               (set_bodies (<[h := mkBodyInfo fixed at_]> (bodies st)) st)).

(** [world.createCollider(desc, body)] *)
Definition createCollider (sensor events : bool) (body : nat) : M nat :=
  λ st, let h := next_collider st in
        Ok h (set_next_collider (S h)
               (set_colliders (<[h := mkCollider body sensor events]> (colliders st)) st)).

(** [collider.setActiveEvents(RAPIER.ActiveEvents.COLLISION_EVENTS)] *)
Definition setActiveEvents (c : nat) : M () :=
  modify (λ st, set_colliders
    (alter (λ ci, mkCollider (ci_parent ci) (ci_sensor ci) true) c (colliders st)) st).

(** [world.removeRigidBody(body)]: the body goes, and its colliders with it. *)
Definition removeRigidBody (body : nat) : M () :=
  modify (λ st,
    set_colliders (filter (λ kv, ci_parent kv.2 ≠ body) (colliders st))
      (set_bodies (delete body (bodies st)) st)).

(** An object literal: a new object in the store. *)
Definition new_object (o : Obj) : M nat :=
  λ st, Ok (length (heap st)) (set_heap (heap st ++ [o]) st).

(** [setInterval(spawnCoin, ...)], [clearInterval(id)] *)
Definition setInterval : M nat :=
  λ st, let id := next_timer st in
        Ok id (set_next_timer (S id) (set_intervals ({[id]} ∪ intervals st) st)).
Definition clearInterval (id : option nat) : M () :=
  match id with
  | Some i => modify (λ st, set_intervals (intervals st ∖ {[i]}) st)
  | None => mret ()
  end.

(** [setTimeout(callback, 0)] *)
Definition setTimeout (t : Task) : M () :=
  modify (λ st, set_timeouts (timeouts st ++ [t]) st).

(** [array.indexOf(x)] on an array of references *)
Fixpoint indexOf (x : nat) (l : list nat) : option nat :=
  match l with
  | [] => None
  | y :: l' => if decide (y = x) then Some 0%nat else S <$> indexOf x l'
  end.

(** [const i = array.indexOf(x); if (i !== -1) array.splice(i, 1)] *)
Definition splice_out (x : nat) (l : list nat) : list nat :=
  match indexOf x l with
  | Some i => delete i l
  | None => l
  end.
End Runtime.

(** ** scene.js *)

Section Scene.
Context {num : Type} `{JSNumber num}.
Variable cfg : Config num.
Local Abbreviation M := (JS num).

(** One turn of the [for] loop of [createObstacles]. *)
Definition createObstacle (RAPIER : JSVal) : M () :=
  _color ← Math_random;
  boxMesh ← new_mesh;
  r ← Math_random;
  let posX := ((r - lit (1#2)) * of_Z 100)%J in
  r ← Math_random;
  let posZ := ((r - lit (1#2)) * of_Z 100)%J in
  scene_add boxMesh;;
  rapier_member RAPIER;;
  boxBody ← createRigidBody true (mkVec3 posX (lit (1#2)) posZ);
  boxCollider ← createCollider false false boxBody;
  setActiveEvents boxCollider;;
  obs ← new_object (mkObj boxMesh boxBody (Some boxCollider) None (Some Obstacle) None);
  modify (λ st, set_physicsObjects (physicsObjects st ++ [obs]) st);;
  modify (λ st, set_obstacleBoxes (obstacleBoxes st ++ [obs]) st).

Fixpoint createObstacles_loop (RAPIER : JSVal) (count : nat) : M () :=
  match count with
  | O => mret ()
  | S n => createObstacle RAPIER;; createObstacles_loop RAPIER n
  end.

(** [createObstacles(RAPIER, world, scene, physicsObjects, obstacleBoxes,
    isLoading, level=1)].  The four objects in the middle are the game's own
    (every caller passes them); [level] is [None] when the caller passes no
    seventh argument. *)
Definition createObstacles (RAPIER : JSVal) (isLoading : JSVal)
    (level : option Z) : M () :=
  let level := default 1%Z level in
  set_flag isLoading f_obstacles true;;
  let count := (level * boxIncreasePerLevel cfg)%Z in
  createObstacles_loop RAPIER (Z.to_nat count);;
  set_flag isLoading f_obstacles false.

(** [createBoundaryBox(scene)] *)
Definition createBoundaryBox : M () :=
  fence ← new_mesh;
  scene_add fence.

(** The rigid body [createScene] makes for the car, as first read. *)
Definition new_car_body (handle : nat) (at_ : Vec3 num) : RigidBody num :=
  mkBody num handle at_ vec0 (mkQuat zero zero zero (of_Z 1)) vec0 [].

(** [createScene(world, scene, physicsObjects, carMesh, carBody, carCollider,
    level, obstacleBoxes, isLoading, RAPIER)]: returns the [carBody] and the
    [level] of its result object. *)
Definition createScene (level : Z) (isLoading : JSVal) (RAPIER : JSVal)
    : M (RigidBody num * Z) :=
  set_flag isLoading f_level true;;
  groundMesh ← new_mesh;
  scene_add groundMesh;;
  let thickness := lit (1#10) in
  rapier_member RAPIER;;
  groundBody ← createRigidBody true (mkVec3 zero (- thickness)%J zero);
  groundCollider ← createCollider false false groundBody;
  ground ← new_object (mkObj groundMesh groundBody (Some groundCollider) None (Some Ground) None);
  modify (λ st, set_physicsObjects (physicsObjects st ++ [ground]) st);;
  skyMesh ← new_mesh;
  scene_add skyMesh;;
  set_flag isLoading f_car true;;
  carGroup ← new_mesh;
  scene_add carGroup;;
  let position := mkVec3 zero (lit 1) zero in
  carBody ← createRigidBody false position;
  carCollider ← createCollider false false carBody;
  setActiveEvents carCollider;;
  car ← new_object (mkObj carGroup carBody (Some carCollider) None (Some Car) None);
  modify (λ st, set_physicsObjects (physicsObjects st ++ [car]) st);;
  createObstacles RAPIER isLoading (Some level);;
  createBoundaryBox;;
  ambient ← new_mesh;
  scene_add ambient;;
  dirLight ← new_mesh;
  scene_add dirLight;;
  mret (new_car_body carBody position, level).
End Scene.

(** ** game.js *)

(** What one [world.step(eventQueue)] hands to the frame: the state of the
    keys, the car body's new readings and the collision events queued. *)
Record FrameInput (num : Type) := mkFrame {
  fi_controls : Controls;
  fi_translation : Vec3 num;
  fi_linvel : Vec3 num;
  fi_rotation : Quat num;
  fi_events : list (nat * nat);
}.
Arguments mkFrame {num}.
Arguments fi_controls {num}.
Arguments fi_translation {num}.
Arguments fi_linvel {num}.
Arguments fi_rotation {num}.
Arguments fi_events {num}.

Section Game.
Context {num : Type} `{JSNumber num}.
Variable cfg : Config num.
Local Abbreviation M := (JS num).

Definition gameOver (falling : bool) : M () :=
  reading (λ st,
    if isOver st then mret () else
    modify (set_isOver true);;
    modify (set_isFalling falling);;
    reading (λ st, clearInterval (coinSpawnTimer st));;
    modify (λ st, let l := next_listener st in
                  set_next_listener (S l)
                    (set_keydown ({[l]} ∪ keydown st)
                       (set_restartKeyListener (Some l) st)))).

Definition resetGame : M () :=
  modify (set_points 0%Z);;
  modify (set_level 1%Z);;
  modify (set_isOver false);;
  modify (set_physicsObjects []);;
  modify (set_coins []);;
  modify (set_obstacleBoxes []);;
  modify (set_scene ∅).

(** The [do ... while (dist < 10)] of [spawnCoin], fed with the values
    [Math.random] returns: the accepted position and the values left. *)
Fixpoint sampleCoinPosition (rs : list num) : option (num * num * list num) :=
  match rs with
  | r1 :: r2 :: rs' =>
      let posX := ((r1 - lit (1#2)) * of_Z 80)%J in
      let posZ := ((r2 - lit (1#2)) * of_Z 80)%J in
      let dist := nsqrt (posX * posX + posZ * posZ)%J in
      if (dist <? of_Z 10)%J then sampleCoinPosition rs'
      else Some (posX, posZ, rs')
  | _ => None
  end.

(** The loop on the values the run still holds. *)
Definition randomCoinPosition : M (num * num) :=
  λ st, match sampleCoinPosition (random st) with
        | Some (x, z, rs) => Ok (x, z) (set_random rs st)
        | None => Starved (set_random [] st)
        end.

Definition spawnCoin : M () :=
  reading (λ st,
    let coinLimit := (coinBaseCount cfg * level st)%Z in
    if isOver st || (Z.of_nat (length (coins st)) >? coinLimit)%Z then mret () else
    coinMesh ← new_mesh;
    '(posX, posZ) ← randomCoinPosition;
    scene_add coinMesh;;
    coinBody ← createRigidBody false (mkVec3 posX (lit (1#2)) posZ);
    _solid ← createCollider false false coinBody;
    sensorCollider ← createCollider true true coinBody;
    scene_add coinMesh;;
    c ← new_object (mkObj coinMesh coinBody None (Some sensorCollider) None (Some false));
    modify (λ st, set_coins (coins st ++ [c]) st);;
    p ← new_object (mkObj coinMesh coinBody (Some sensorCollider) None (Some Coin) None);
    modify (λ st, set_physicsObjects (physicsObjects st ++ [p]) st)).

Definition startCoinSpawning : M () :=
  id ← setInterval;
  modify (set_coinSpawnTimer (Some id));;
  spawnCoin;; spawnCoin;; spawnCoin;; spawnCoin;; spawnCoin.

(** [levelUp]: the call passes six arguments, so [level] arrives in the
    [isLoading] position and the callee's [level] takes its default. *)
Definition levelUp : M () :=
  modify (λ st, set_level (level st + 1)%Z st);;
  reading (λ st, createObstacles cfg VNamespace (VNumber (level st)) None).

(** A reference of the program always has its object. *)
Definition deref (r : nat) : M Obj :=
  λ st, match heap st !! r with
        | Some o => Ok o st
        | None => Throw TypeError_read_of_undefined st
        end.

Definition mark_collected (o : Obj) : Obj :=
  mkObj (o_mesh o) (o_body o) (o_collider o) (o_sensor o) (o_type o) (Some true).

Definition collectCoin (coin : nat) : M () :=
  modify (λ st, set_heap (alter mark_collected coin (heap st)) st);;
  o ← deref coin;
  scene_remove (o_mesh o);;
  modify (λ st, set_points (points st + value cfg)%Z st);;
  reading (λ st, if (points st >=? level st * pointsToAdvance cfg)%Z
                    && (level st <? maxLevel cfg)%Z
                 then levelUp else mret ());;
  setTimeout (RemoveCoin coin).

(** The callback [collectCoin] hands to [setTimeout]. *)
Definition removeCoin (coin : nat) : M () :=
  modify (λ st, set_coins (splice_out coin (coins st)) st);;
  modify (λ st, set_physicsObjects (splice_out coin (physicsObjects st)) st);;
  o ← deref coin;
  removeRigidBody (o_body o).

Definition restartGame : M () :=
  reading (λ st, match restartKeyListener st with
                 | Some l => modify (λ st, set_restartKeyListener None
                                             (set_keydown (keydown st ∖ {[l]}) st))
                 | None => mret ()
                 end);;
  reading (λ st, clearInterval (coinSpawnTimer st));;
  resetGame;;
  (* nine arguments for ten parameters: RAPIER is bound to isLoading *)
  '(carBody', level') ← reading (λ st, createScene cfg (level st) VNamespace VUndefined);
  modify (set_carBody (Some carBody'));;
  modify (set_level level');;
  startCoinSpawning.

(** [physicsObjects.find(o => o.collider && o.collider.handle === handle)] *)
Definition findByColliderHandle (st : State num) (handle : nat) : option nat :=
  List.find (λ r, match heap st !! r with
                  | Some o => bool_decide (o_collider o = Some handle)
                  | None => false
                  end) (physicsObjects st).

Definition is_type (t : EntityType) (o : Obj) : bool :=
  bool_decide (o_type o = Some t).

(** [!obj.collected] *)
Definition not_collected (o : Obj) : bool :=
  match o_collected o with Some true => false | _ => true end.

(** The callback of [eventQueue.drainCollisionEvents]. *)
Definition onCollision (handle1 handle2 : nat) : M () :=
  reading (λ st,
    let obj1 := findByColliderHandle st handle1 in
    let obj2 := findByColliderHandle st handle2 in
    (* console.log(`Collision detected: ${obj1.type} with ${obj2.type}`) *)
    match obj1, obj2 with
    | Some _, Some _ =>
      (* if (!obj1 || !obj2) return; *)
      match obj1, obj2 with
      | Some r1, Some r2 =>
        o1 ← deref r1;
        o2 ← deref r2;
        if is_type Car o1 || is_type Car o2 then
          let otherRef := if is_type Car o1 then r2 else r1 in
          let otherObj := if is_type Car o1 then o2 else o1 in
          if is_type Coin otherObj && not_collected otherObj then collectCoin otherRef
          else if is_type Obstacle otherObj then gameOver false
          else mret ()
        else mret ()
      | _, _ => mret ()
      end
    | _, _ => throw TypeError_read_of_undefined
    end).

(** [drainCollisionEvents]: the callback on each queued pair, in order; an
    exception leaves the loop. *)
Fixpoint drainCollisionEvents (events : list (nat * nat)) : M () :=
  match events with
  | [] => mret ()
  | (handle1, handle2) :: rest =>
      onCollision handle1 handle2;; drainCollisionEvents rest
  end.

(** [world.step(eventQueue)], as far as the game reads it back. *)
Definition world_step (inp : FrameInput num) : M () :=
  modify (λ st, set_carBody
    ((λ b, mkBody num (rb_handle b) (fi_translation inp) (fi_linvel inp)
                  (fi_rotation inp) (rb_force b) (rb_calls b)) <$> carBody st) st).

(** The boundary check of [animate]. *)
Definition offTheMap (pos : Vec3 num) : bool :=
  let half := (groundSize cfg / of_Z 2)%J in
  (nabs (vx pos) >? half)%J || (nabs (vz pos) >? half)%J.

Definition animate (inp : FrameInput num) : M () :=
  reading (λ st,
    if negb (isOver st) || (isOver st && isFalling st) then
      world_step inp;;
      modify (λ st, set_carBody
        (updateCarPhysics cfg (isOver st) (isFalling st) (carBody st)
                          (level st) (fi_controls inp)) st);;
      reading (λ st, match carBody st with
                     | None => throw TypeError_read_of_undefined
                     | Some body =>
                         let pos := rb_translation body in
                         if offTheMap pos then gameOver true else mret ()
                     end);;
      drainCollisionEvents (fi_events inp)
    else mret ()).

(** ** The browser's turns *)

Inductive Event :=
  | Frame (inp : FrameInput num)    (* requestAnimationFrame fires animate *)
  | CoinTick (id : nat)             (* the interval timer [id] is due *)
  | RunTimeout                      (* the oldest pending setTimeout callback *)
  | Restart.                        (* the restart button, or Enter / space *)

Definition run_task (t : Task) : M () :=
  match t with RemoveCoin coin => removeCoin coin end.

Definition handle (ev : Event) : M () :=
  match ev with
  | Frame inp => animate inp
  | CoinTick id =>
      reading (λ st, if bool_decide (id ∈ intervals st) then spawnCoin else mret ())
  | RunTimeout =>
      reading (λ st, match timeouts st with
                     | t :: ts => modify (set_timeouts ts);; run_task t
                     | [] => mret ()
                     end)
  | Restart => restartGame
  end.

(** A turn that throws ends there; the next turn starts from the state it
    left ([animate] has already re-armed [requestAnimationFrame]). *)
Definition turn (st : State num) (ev : Event) : State num :=
  state_of (handle ev st).

Definition run (evs : list Event) (st : State num) : State num :=
  foldl turn st evs.
End Game.

(** ** Predicates of the statements *)

(** [preserved P m]: whatever way [m] ends, it ends in a state that
    satisfies [P] when it started in one. *)
Definition preserved {num : Type} (P : State num → Prop) {A : Type}
    (m : JS num A) : Prop :=
  ∀ st, P st → P (state_of (m st)).

(** What [collectCoin] has done to the state when it comes to decide about
    the level: the flag, the visual, the points. *)
Definition picked {num : Type} (cfg : Config num) (coin : nat) (o : Obj)
    (st : State num) : State num :=
  set_points (points st + value cfg)%Z
    (set_scene (scene st ∖ {[o_mesh o]})
       (set_heap (alter mark_collected coin (heap st)) st)).

(** The part of [restartGame] that follows [resetGame]: the scene is built
    and the spawning restarted. *)
Definition rebuild {num : Type} `{JSNumber num} (cfg : Config num) : JS num () :=
  r ← reading (λ st, createScene cfg (level st) VNamespace VUndefined);
  (let '(carBody', level') := r in
   modify (set_carBody (Some carBody'));;
   modify (set_level level');;
   startCoinSpawning cfg).

(** The game is over, in the way and with the listeners given. *)
Definition stays_over {num : Type} (falling : bool) (listeners : nat)
    (K : gset nat) (L : option nat) (st : State num) : Prop :=
  isOver st = true ∧ isFalling st = falling ∧ next_listener st = listeners ∧
  keydown st = K ∧ restartKeyListener st = L.

(** Every live interval timer is the one [coinSpawnTimer] remembers. *)
Definition timers_tracked {num : Type} (st : State num) : Prop :=
  ∀ id, id ∈ intervals st → coinSpawnTimer st = Some id.

(** A collected coin waiting for its deferred removal: the callback is
    queued, the body is in the world, the entry is in the registry, and the
    coin records are the ones given. *)
Definition still_there {num : Type} (coin body : nat) (C : list nat)
    (st : State num) : Prop :=
  RemoveCoin coin ∈ timeouts st ∧ is_Some (bodies st !! body) ∧
  coin ∈ physicsObjects st ∧ coins st = C.

(** The test that makes [spawnCoin] return at once. *)
Definition spawnRejected {num : Type} (cfg : Config num) (st : State num) : bool :=
  isOver st || (Z.of_nat (length (coins st)) >? coinBaseCount cfg * level st)%Z.

(** [Math.random] returns values in [0, 1). *)
Definition unit_interval (rs : list R) : Prop :=
  Forall (λ r, (0 <= r < 1)%R) rs.

(** A position inside the 80-unit square and at least 10 units from the
    centre. *)
Definition well_placed (x z : R) : Prop :=
  (-40 <= x <= 40)%R ∧ (-40 <= z <= 40)%R ∧ (10 <= sqrt (x * x + z * z))%R.

(** ** Scenarios: concrete bodies and states *)

Module Scenario.
Definition F := F64.float.

(** The car at rest, upright, at the centre of the arena. *)
Definition car_at_rest : RigidBody F :=
  mkBody F 1 (mkVec3 zero (lit 1) zero) vec0
         (mkQuat zero zero zero (of_Z 1)) vec0 [].

(** The car rolling at 3 units along x. *)
Definition car_rolling : RigidBody F :=
  mkBody F 1 (mkVec3 zero (lit 1) zero) (mkVec3 (of_Z 3) zero zero)
         (mkQuat zero zero zero (of_Z 1)) vec0 [].

Definition handbrake_only : Controls := mkControls false false false false true.
Definition no_keys : Controls := mkControls false false false false false.

(** A game in progress at level 1 with 50 points: the ground, the car, one
    obstacle and one coin.  The coin has its two colliders, the solid one
    (handle 3) and the sensor (handle 4); as [spawnCoin] leaves it, only the
    sensor belongs to an entry of [physicsObjects]. *)
Definition playing : State F := {|
  points := 50;
  level := 1;
  physicsObjects := [0; 1; 2; 4];
  coins := [3];
  obstacleBoxes := [2];
  coinSpawnTimer := Some 0;
  restartKeyListener := None;
  carBody := Some car_rolling;
  isOver := false;
  isFalling := false;
  heap := [ mkObj 0 0 (Some 0) None (Some Ground) None;
            mkObj 1 1 (Some 1) None (Some Car) None;
            mkObj 2 2 (Some 2) None (Some Obstacle) None;
            mkObj 3 3 None (Some 4) None (Some false);
            mkObj 3 3 (Some 4) None (Some Coin) None ];
  bodies := {[ 0 := mkBodyInfo true (mkVec3 zero (- lit (1#10))%J zero);
               1 := mkBodyInfo false (mkVec3 zero (lit 1) zero);
               2 := mkBodyInfo true (mkVec3 (of_Z 20) (lit (1#2)) (of_Z 5));
               3 := mkBodyInfo false (mkVec3 (of_Z 20) (lit (1#2)) (of_Z 20)) ]};
  colliders := {[ 0 := mkCollider 0 false false;
                  1 := mkCollider 1 false true;
                  2 := mkCollider 2 false true;
                  3 := mkCollider 3 false false;
                  4 := mkCollider 3 true true ]};
  next_body := 4;
  next_collider := 5;
  scene := {[ 0; 1; 2; 3 ]};
  next_mesh := 4;
  intervals := {[ 0 ]};
  next_timer := 1;
  timeouts := [];
  keydown := ∅;
  next_listener := 0;
  random := [];
  isLoading := mkFlags false false false false;
|}.

(** The same game one coin short of the level-1 threshold, and at it. *)
Definition one_coin_short : State F := set_points 90 playing.
Definition at_threshold : State F := set_points 100 playing.

(** The same game once its coin has been picked up. *)
Definition coin_taken : State F :=
  set_heap (alter mark_collected 4 (heap playing)) playing.


(** A frame with no key down, the car still on the arena, and the events
    given. *)
Definition frame_with (events : list (nat * nat)) : FrameInput F :=
  mkFrame no_keys (mkVec3 zero (lit 1) zero) (mkVec3 (of_Z 3) zero zero)
          (mkQuat zero zero zero (of_Z 1)) events.

(** A frame that finds the car at x = 51, beyond the edge at 50. *)
Definition frame_outside : FrameInput F :=
  mkFrame no_keys (mkVec3 (of_Z 51) (lit 1) zero) (mkVec3 (of_Z 3) zero zero)
          (mkQuat zero zero zero (of_Z 1)) [].

(** The same game after that frame: the car has fallen off the arena. *)
Definition fallen : State F := turn CONFIG playing (Frame frame_outside).

(** Two more values for [Math.random]: the first pair puts a coin on the
    centre and is drawn again, the second is kept. *)
Definition with_random : State F :=
  set_random [lit (1#2); lit (1#2); lit (3#4); lit (3#4)] playing.

(** On the real numbers: an empty arena, and the two values that put the
    first coin at (20, 0). *)
Definition real_start : State R := {|
  points := 0;
  level := 1;
  physicsObjects := [];
  coins := [];
  obstacleBoxes := [];
  coinSpawnTimer := None;
  restartKeyListener := None;
  carBody := None;
  isOver := false;
  isFalling := false;
  heap := [];
  bodies := ∅;
  colliders := ∅;
  next_body := 0;
  next_collider := 0;
  scene := ∅;
  next_mesh := 0;
  intervals := ∅;
  next_timer := 0;
  timeouts := [];
  keydown := ∅;
  next_listener := 0;
  random := [(3 / 4)%R; (1 / 2)%R];
  isLoading := mkFlags false false false false;
|}.
End Scenario.

(** ** The rest of the physics module *)

Section Removal.
Context {num : Type} `{JSNumber num}.
Local Abbreviation M := (JS num).

(** [array.forEach(callback)] on an array of references *)
Fixpoint forEach (callback : nat → M ()) (array : list nat) : M () :=
  match array with
  | [] => mret ()
  | r :: rest => callback r;; forEach callback rest
  end.

(** [world.removeCollider(collider, true)] *)
Definition removeCollider (c : nat) : M () :=
  modify (λ st, set_colliders (delete c (colliders st)) st).

(** The callback of the first loop of [removePhysicsObjects]: the collider
    first, when the object has one, then the body (every object of the game
    has one).  Each call sits in a [try] whose [catch] only logs; the world
    operations of the model do not throw. *)
Definition removeObject (r : nat) : M () :=
  obj ← deref r;
  match o_collider obj with
  | Some c => removeCollider c
  | None => mret ()
  end;;
  removeRigidBody (o_body obj).

(** The callback of its second loop: [coin.sensor && !coin.collected]. *)
Definition removeCoinSensor (r : nat) : M () :=
  coin ← deref r;
  match o_sensor coin with
  | Some s => if not_collected coin then removeCollider s else mret ()
  | None => mret ()
  end.

(** [removePhysicsObjects(physicsObjects, world, coins)], on the arrays of
    the game; [world] tells whether the world argument is there. *)
Definition removePhysicsObjects (world : bool) : M () :=
  if world then
    reading (λ st, forEach removeObject (physicsObjects st));;
    reading (λ st, forEach removeCoinSensor (coins st))
  else mret ().
End Removal.

(** ** The helper module: [randomRange] *)

Definition randomRange {num : Type} `{JSNumber num} (min max : num) : JS num num :=
  r ← Math_random;
  mret (r * (max - min) + min)%J.

(** ** The game module: start-up *)

(** [initGame(rapier)] up to and including its first call of [animate],
    whose frame input is [first]: a new scene and a new world, the reset,
    the scene construction (called, as in [restartGame], with nine arguments
    for ten parameters), the coin spawning and the first frame. *)
Definition initGame {num : Type} `{JSNumber num} (cfg : Config num)
    (first : FrameInput num) : JS num () :=
  modify (set_scene ∅);;
  modify (λ st, set_next_collider 0 (set_next_body 0
                  (set_colliders ∅ (set_bodies ∅ st))));;
  resetGame;;
  r ← reading (λ st, createScene cfg (level st) VNamespace VUndefined);
  (let '(carBody', level') := r in
   modify (set_carBody (Some carBody'));;
   modify (set_level level');;
   startCoinSpawning cfg;;
   animate cfg first).

(** ** controls.js: the key handlers of [setupInput] *)

From Stdlib Require String Ascii.

Section KeyHandlers.
Import String.

(** [String.prototype.toLowerCase], on the ASCII letters; the handlers
    compare its result with five ASCII keys, and no other character has one
    of them as its lower case. *)
Definition lower_ascii (c : Ascii.ascii) : Ascii.ascii :=
  let n := Ascii.nat_of_ascii c in
  if (65 <=? n)%nat && (n <=? 90)%nat then Ascii.ascii_of_nat (n + 32) else c.

Fixpoint toLowerCase (s : string) : string :=
  match s with
  | EmptyString => EmptyString
  | String c s' => String (lower_ascii c) (toLowerCase s')
  end.

Definition set_forward (b : bool) (c : Controls) : Controls :=
  mkControls b (reverse c) (steer_left c) (steer_right c) (handbrake c).
Definition set_reverse (b : bool) (c : Controls) : Controls :=
  mkControls (forward c) b (steer_left c) (steer_right c) (handbrake c).
Definition set_left (b : bool) (c : Controls) : Controls :=
  mkControls (forward c) (reverse c) b (steer_right c) (handbrake c).
Definition set_right (b : bool) (c : Controls) : Controls :=
  mkControls (forward c) (reverse c) (steer_left c) b (handbrake c).
Definition set_handbrake (b : bool) (c : Controls) : Controls :=
  mkControls (forward c) (reverse c) (steer_left c) (steer_right c) b.

(** The body the two listeners share: [down] is [true] in the keydown
    listener and [false] in the keyup listener. *)
Definition onKey (down : bool) (key : string) (c : Controls) : Controls :=
  let k := toLowerCase key in
  let c := if (k =? "w")%string then set_forward down c else c in
  let c := if (k =? "s")%string then set_reverse down c else c in
  let c := if (k =? "a")%string then set_left down c else c in
  let c := if (k =? "d")%string then set_right down c else c in
  if (k =? " ")%string then set_handbrake down c else c.

(** A keyboard event as the listeners see it. *)
Record KeyEvent := mkKey { ke_down : bool; ke_key : string }.

Definition onKeys (events : list KeyEvent) (c : Controls) : Controls :=
  foldl (λ c e, onKey (ke_down e) (ke_key e) c) c events.
End KeyHandlers.


Section KeyState.
Import String.

(** Whether a key is down after a sequence of keyboard events: the
    direction of the last event for that key, and [init] when there is
    none. *)
Fixpoint key_state (k : string) (events : list KeyEvent) (init : bool) : bool :=
  match events with
  | [] => init
  | e :: rest =>
      key_state k rest
        (if (toLowerCase (ke_key e) =? k)%string then ke_down e else init)
  end.

(** The five keys the listeners know. *)
Definition known_key (k : string) : bool :=
  (k =? "w")%string || (k =? "s")%string || (k =? "a")%string
  || (k =? "d")%string || (k =? " ")%string.
End KeyState.

(** ** Predicates of the further statements *)

(** No coin timer runs, and nothing is registered. *)
Definition dead_arena {num : Type} (st : State num) : Prop :=
  intervals st = ∅ ∧ coins st = [] ∧ physicsObjects st = [] ∧
  obstacleBoxes st = [].

(** Every keydown listener of the game is the restart listener it
    remembers, and there is one only while the game is over. *)
Definition listeners_tracked {num : Type} (st : State num) : Prop :=
  ∀ l, l ∈ keydown st → isOver st = true ∧ restartKeyListener st = Some l.

(** The level is one of the levels of the configuration and the points are
    not negative. *)
Definition score_in_range {num : Type} (cfg : Config num) (st : State num) : Prop :=
  (1 ≤ level st ≤ maxLevel cfg)%Z ∧ (0 ≤ points st)%Z.

(** The number of coin records is within one of the limit of the level. *)
Definition coins_capped {num : Type} (cfg : Config num) (st : State num) : Prop :=
  (Z.of_nat (length (coins st)) ≤ coinBaseCount cfg * level st + 1)%Z.

(** The references of the game are kept apart: a coin record is an object
    of its own, which is neither a registry entry nor the object a deferred
    removal is waiting for; and every reference held has its object. *)
Definition refs_apart {num : Type} (st : State num) : Prop :=
  (∀ r, r ∈ coins st →
     r < length (heap st) ∧ (r ∉ physicsObjects st) ∧ (RemoveCoin r ∉ timeouts st)) ∧
  (∀ r, r ∈ physicsObjects st → r < length (heap st)) ∧
  (∀ r, RemoveCoin r ∈ timeouts st → r < length (heap st)).

(** ... and the coin records [C] are still the first ones. *)
Definition records_kept {num : Type} (C : list nat) (st : State num) : Prop :=
  refs_apart st ∧ (C `prefix_of` coins st).

(** From [st] to [st'] the world has only lost bodies and colliders, and
    nothing else has changed. *)
Definition world_shrunk {num : Type} (st st' : State num) : Prop :=
  bodies st' ⊆ bodies st ∧ colliders st' ⊆ colliders st ∧
  st' = set_colliders (colliders st') (set_bodies (bodies st') st).

(** The body of the object is out of the world, its collider too, and the
    world holds no collider attached to its body. *)
Definition out_of_world {num : Type} (o : Obj) (st : State num) : Prop :=
  bodies st !! o_body o = None ∧
  (∀ c, o_collider o = Some c → colliders st !! c = None) ∧
  (∀ c ci, colliders st !! c = Some ci → ci_parent ci ≠ o_body o).

(** ** scene.js: the tyre tracks

    [createTireTracksSystem(scene)] returns an object with the track
    segments drawn so far, the last position of each rear wheel and four
    methods.  [updateCarPhysics] feeds it once per frame; that side of the
    function, which its model above leaves out, is [updateCarPhysics_tracks]
    below.  The object and the lines it draws into the scene are kept in a
    state of their own.
    [Math.sin] and [Math.cos] are left to the implementation by the
    language, so they are parameters here. *)

Record Track (num : Type) := mkTrack {
  tr_line : nat;                     (* the THREE.Line *)
  tr_points : Vec3 num * Vec3 num;
  tr_isLeftWheel : bool;
  tr_age : Z;
  tr_opacity : num;                  (* line.material.opacity *)
}.
Arguments mkTrack {num}.
Arguments tr_line {num}.
Arguments tr_points {num}.
Arguments tr_isLeftWheel {num}.
Arguments tr_age {num}.
Arguments tr_opacity {num}.

Record TireTracks (num : Type) := mkTireTracks {
  tracks : list (Track num);
  lastLeftPos : option (Vec3 num);
  lastRightPos : option (Vec3 num);
  tt_scene : gset nat;               (* the lines among scene.children *)
  tt_next_line : nat;
}.
Arguments mkTireTracks {num}.
Arguments tracks {num}.
Arguments lastLeftPos {num}.
Arguments lastRightPos {num}.
Arguments tt_scene {num}.
Arguments tt_next_line {num}.

Section TireTracksSystem.
Context {num : Type} `{JSNumber num}.
Variable cfg : Config num.
Variables Math_sin Math_cos : num → num.

(** [Math.max], through [Math.min]: the larger of the two, and NaN when
    either is NaN. *)
Definition Math_max (a b : num) : num := (- nmin (- a) (- b))%J.

(** [maxTracks: 1000] *)
Definition maxTracks : Z := 1000.

(** [Vector3.distanceTo] *)
Definition distanceTo (a b : Vec3 num) : num :=
  let dx := (vx a - vx b)%J in
  let dy := (vy a - vy b)%J in
  let dz := (vz a - vz b)%J in
  nsqrt (dx * dx + dy * dy + dz * dz)%J.

(** [Quaternion.setFromAxisAngle] and [Vector3.applyAxisAngle], three.js r114 *)
Definition setFromAxisAngle (axis : Vec3 num) (angle : num) : Quat num :=
  let halfAngle := (angle / of_Z 2)%J in
  let s := Math_sin halfAngle in
  mkQuat (vx axis * s)%J (vy axis * s)%J (vz axis * s)%J (Math_cos halfAngle).

Definition applyAxisAngle (v axis : Vec3 num) (angle : num) : Vec3 num :=
  applyQuaternion v (setFromAxisAngle axis angle).

(** [createTrackSegment(startPoint, endPoint, isLeftWheel)]; the material is
    a clone of the system's, whose opacity is 0.7. *)
Definition createTrackSegment (startPoint endPoint : Vec3 num)
    (isLeftWheel : bool) (ts : TireTracks num) : TireTracks num :=
  let line := tt_next_line ts in
  mkTireTracks
    (tracks ts ++ [mkTrack line (startPoint, endPoint) isLeftWheel 0%Z (lit (7#10))])
    (lastLeftPos ts) (lastRightPos ts)
    ({[line]} ∪ tt_scene ts) (S line).

(** The opacity [fadeOldTracks] gives a track of the age given. *)
Definition fadedOpacity (age : Z) : num :=
  Math_max (of_Z 0) (lit (7#10) - (of_Z age / of_Z maxTracks) * lit (7#10))%J.

(** [fadeOldTracks()]: the loop over [tracks], which ages every track and
    takes out, with [splice(i, 1); i--], the ones that have faded. *)
Fixpoint fadeOldTracks_loop (l : list (Track num)) (scene : gset nat)
    : list (Track num) * gset nat :=
  match l with
  | [] => ([], scene)
  | track :: rest =>
      let age := (tr_age track + 1)%Z in
      let opacity := fadedOpacity age in
      if (opacity <? lit (1#20))%J then
        fadeOldTracks_loop rest (scene ∖ {[tr_line track]})
      else
        let '(rest', scene') := fadeOldTracks_loop rest scene in
        (mkTrack (tr_line track) (tr_points track) (tr_isLeftWheel track)
                 age opacity :: rest', scene')
  end.

Definition fadeOldTracks (ts : TireTracks num) : TireTracks num :=
  let '(l, scene) := fadeOldTracks_loop (tracks ts) (tt_scene ts) in
  mkTireTracks l (lastLeftPos ts) (lastRightPos ts) scene (tt_next_line ts).

(** [while (this.tracks.length > this.maxTracks)]: the oldest track is
    shifted out and its line removed from the scene. *)
Fixpoint removeOldest (l : list (Track num)) (scene : gset nat)
    : list (Track num) * gset nat :=
  match l with
  | [] => ([], scene)
  | oldestTrack :: rest =>
      if (Z.of_nat (length l) >? maxTracks)%Z
      then removeOldest rest (scene ∖ {[tr_line oldestTrack]})
      else (l, scene)
  end.

(** One wheel of [addTrack]: [last] is the wheel's last position, [set_last]
    writes it. *)
Definition wheelTrack (last : option (Vec3 num)) (wheelPos : Vec3 num)
    (isLeftWheel : bool)
    (set_last : Vec3 num → TireTracks num → TireTracks num)
    (ts : TireTracks num) : TireTracks num :=
  match last with
  | Some lastPos =>
      if (distanceTo lastPos wheelPos >? lit (1#5))%J
      then set_last wheelPos (createTrackSegment lastPos wheelPos isLeftWheel ts)
      else ts
  | None => set_last wheelPos ts
  end.

Definition set_lastLeftPos (p : option (Vec3 num)) (ts : TireTracks num)
    : TireTracks num :=
  mkTireTracks (tracks ts) p (lastRightPos ts) (tt_scene ts) (tt_next_line ts).
Definition set_lastRightPos (p : option (Vec3 num)) (ts : TireTracks num)
    : TireTracks num :=
  mkTireTracks (tracks ts) (lastLeftPos ts) p (tt_scene ts) (tt_next_line ts).

(** [addTrack(position, rotation, width = 1.8)]; of [rotation] the method
    reads [rotation.y]. *)
Definition addTrack (position : Vec3 num) (rotation_y : num)
    (ts : TireTracks num) : TireTracks num :=
  let width := lit (9#5) in
  let up := mkVec3 (of_Z 0) (of_Z 1) (of_Z 0) in
  let leftWheelOffset :=
    applyAxisAngle (mkVec3 (- width / of_Z 2)%J (lit (1#20)) (of_Z (-1))) up rotation_y in
  let rightWheelOffset :=
    applyAxisAngle (mkVec3 (width / of_Z 2)%J (lit (1#20)) (of_Z (-1))) up rotation_y in
  let leftWheelPos :=
    mkVec3 (vx position + vx leftWheelOffset)%J (lit (1#20))
           (vz position + vz leftWheelOffset)%J in
  let rightWheelPos :=
    mkVec3 (vx position + vx rightWheelOffset)%J (lit (1#20))
           (vz position + vz rightWheelOffset)%J in
  let ts := wheelTrack (lastLeftPos ts) leftWheelPos true
              (λ p, set_lastLeftPos (Some p)) ts in
  let ts := wheelTrack (lastRightPos ts) rightWheelPos false
              (λ p, set_lastRightPos (Some p)) ts in
  let '(l, scene) := removeOldest (tracks ts) (tt_scene ts) in
  fadeOldTracks
    (mkTireTracks l (lastLeftPos ts) (lastRightPos ts) scene (tt_next_line ts)).

(** [update(carMesh, carVelocity)], for a car mesh that has its position
    and its rotation. *)
Definition tracks_update (position : Vec3 num) (rotation_y : num)
    (carVelocity_x carVelocity_z : num) (ts : TireTracks num) : TireTracks num :=
  let speed := nsqrt (carVelocity_x * carVelocity_x
                      + carVelocity_z * carVelocity_z)%J in
  if (speed >? of_Z 1)%J then addTrack position rotation_y ts else ts.

(** What a frame of [updateCarPhysics] does to the tyre-track system it is
    given (game.js receives the system from [createScene] together with the
    car body): it forgets the wheel positions unless the handbrake is held,
    and after the forces it calls [update] with the car mesh's position and
    rotation and with the velocity the body then reports. *)
Definition updateCarPhysics_tracks (isOver isFalling : bool)
    (carBody : option (RigidBody num)) (level : Z) (controls : Controls)
    (position : Vec3 num) (rotation_y : num)
    (ts : TireTracks num) : TireTracks num :=
  match carBody with
  | None => ts
  | Some body =>
    if isOver && negb isFalling then ts else
    let ts := if negb (handbrake controls)
              then set_lastRightPos None (set_lastLeftPos None ts)
              else ts in
    match updateCarPhysics cfg isOver isFalling (Some body) level controls with
    | Some body' =>
        let carVelocity := rb_linvel body' in
        tracks_update position rotation_y (vx carVelocity) (vz carVelocity) ts
    | None => ts
    end
  end.
End TireTracksSystem.

(** ** Predicates on the tyre tracks *)

(** Every line the system has in the scene belongs to a track it keeps. *)
Definition no_stray_line {num : Type} (ts : TireTracks num) : Prop :=
  ∀ line, line ∈ tt_scene ts → line ∈ tr_line <$> tracks ts.
(** * Properties *)

(** ** physics.js *)

Section PhysicsFacts.
Context {num : Type} `{JSNumber num}.
Variable cfg : Config num.

Lemma driveForce_handbrake controls forwardDir absVel maxSpeed :
  handbrake controls = true →
  driveForce cfg controls forwardDir absVel maxSpeed = vec0.
Proof. intros Hb. unfold driveForce. by rewrite Hb. Qed.

Lemma driveForce_no_input controls forwardDir absVel maxSpeed :
  forward controls = false → reverse controls = false →
  driveForce cfg controls forwardDir absVel maxSpeed = vec0.
Proof.
  intros Hf Hr. unfold driveForce. rewrite Hf, Hr. simpl.
  by destruct (handbrake controls).
Qed.

(** The calls a frame adds come after the ones already made. *)
Lemma updateCarPhysics_runs isOver isFalling body level controls :
  isOver && negb isFalling = false →
  ∃ body', updateCarPhysics cfg isOver isFalling (Some body) level controls
           = Some body'.
Proof. intros Hgo. unfold updateCarPhysics. rewrite Hgo. eauto. Qed.
End PhysicsFacts.



(** With the handbrake on, the drive vector is empty on both number models,
    so every handbrake frame is also a frame that calls [resetForces]. *)
Lemma no_drive_force_length_binary64 : (vlength (num:=F64.float) vec0 >? zero)%J = false.
Proof. reflexivity. Qed.

Lemma no_drive_force_length_real : (vlength (num:=R) vec0 >? zero)%J = false.
Proof.
  unfold vlength, vec0, zero. simpl. unfold Rltb.
  replace (0 * 0 + 0 * 0 + 0 * 0)%R with 0%R by lra.
  rewrite sqrt_0. destruct (Rlt_dec 0 0) as [Hlt|]; [lra|reflexivity].
Qed.

(** C10: with the handbrake on and the car at rest, the handbrake branch
    divides 0 by the speed 0: the x and z components of the force it hands to
    [addForce] are NaN, not finite numbers. *)
Theorem handbrake_at_rest_passes_NaN :
  ∃ body' f rest,
    updateCarPhysics CONFIG false false (Some Scenario.car_at_rest) 1
                     Scenario.handbrake_only = Some body' ∧
    rb_calls body' = AddForce f :: rest ∧
    PrimFloat.is_nan (vx f) = true ∧ PrimFloat.is_nan (vz f) = true ∧
    F64.is_finite (vx f) = false ∧ F64.is_finite (vz f) = false.
Proof.
  do 3 eexists. split; [vm_compute; reflexivity|].
  split; [vm_compute; reflexivity|].
  repeat split; vm_compute; reflexivity.
Qed.

(** On the real numbers the level-scaled cap is the formula of the source. *)
Lemma getCarMaxSpeed_real (cfg : Config R) (level : Z) :
  getCarMaxSpeed cfg level
  = (maxSpeed cfg * Rmin (1 + (IZR level - 1) * 0.25) 2)%R.
Proof.
  unfold getCarMaxSpeed, lit. simpl.
  f_equal. f_equal; lra.
Qed.

(** C6: [getCarMaxSpeed(level)] is the configured maximum speed times
    [min(1.0 + (level - 1) * 0.25, 2.0)]; it does not decrease when the level
    grows and never exceeds twice the configured maximum speed. *)
Theorem getCarMaxSpeed_monotone_capped (cfg : Config R) (level level' : Z) :
  (0 <= maxSpeed cfg)%R →
  getCarMaxSpeed cfg level
    = (maxSpeed cfg * Rmin (1 + (IZR level - 1) * 0.25) 2)%R ∧
  ((level ≤ level')%Z → (getCarMaxSpeed cfg level <= getCarMaxSpeed cfg level')%R) ∧
  (getCarMaxSpeed cfg level <= 2 * maxSpeed cfg)%R.
Proof.
  intros Hpos. split; [apply getCarMaxSpeed_real|]. split.
  - intros Hle. rewrite !getCarMaxSpeed_real.
    apply Rmult_le_compat_l; [exact Hpos|].
    apply Rle_min_compat_r. apply IZR_le in Hle. lra.
  - rewrite getCarMaxSpeed_real.
    pose proof (Rmin_r (1 + (IZR level - 1) * 0.25) 2) as Hcap.
    rewrite (Rmult_comm 2). apply Rmult_le_compat_l; assumption.
Qed.

Lemma getCarMaxSpeed_monotone_capped_witness :
  (0 <= maxSpeed (CONFIG (num:=R)))%R ∧
  (getCarMaxSpeed CONFIG 2 <= getCarMaxSpeed CONFIG 3)%R ∧
  (getCarMaxSpeed CONFIG 7 <= 2 * maxSpeed (CONFIG (num:=R)))%R.
Proof.
  assert (Hpos : (0 <= maxSpeed (CONFIG (num:=R)))%R) by (simpl; lra).
  split; [exact Hpos|]. split.
  - apply (getCarMaxSpeed_monotone_capped CONFIG 2 3 Hpos). lia.
  - apply (getCarMaxSpeed_monotone_capped CONFIG 7 7 Hpos).
Defined.

(** The same values on binary64, level by level up to [maxLevel]: every
    operation of the formula is exact there. *)
Lemma getCarMaxSpeed_binary64_levels :
  map (getCarMaxSpeed (num:=F64.float) CONFIG) [1; 2; 3; 4; 5; 6; 7; 8; 9; 10]%Z
  = map lit [25#1; 125#4; 75#2; 175#4; 50#1; 50#1; 50#1; 50#1; 50#1; 50#1].
Proof. vm_compute. reflexivity. Qed.

(** ** Reasoning about runs *)

#[local] Arguments Z.geb : simpl never.
#[local] Arguments Z.gtb : simpl never.
#[local] Arguments Z.ltb : simpl never.
#[local] Arguments Z.leb : simpl never.
#[local] Arguments Z.mul : simpl never.
#[local] Arguments Z.add : simpl never.

Ltac js_unfold :=
  unfold mbind, JS_bind, mret, JS_ret, modify, reading, throw, deref,
    scene_remove, scene_add, setTimeout, set_flag, rapier_member,
    clearInterval in *.
Ltac js_simpl := repeat (js_unfold; cbn beta iota); simpl.

Section Preserved.
Context {num : Type} `{JSNumber num}.
Variable cfg : Config num.
Variable P : State num → Prop.

Lemma preserved_ret {A : Type} (a : A) : preserved P (mret a).
Proof. intros st HP. exact HP. Qed.

Lemma preserved_throw {A : Type} (e : Error) : preserved P (throw (A:=A) e).
Proof. intros st HP. exact HP. Qed.

Lemma preserved_bind {A B : Type} (m : JS num A) (f : A → JS num B) :
  preserved P m → (∀ a, preserved P (f a)) → preserved P (m ≫= f).
Proof.
  intros Hm Hf st HP. specialize (Hm st HP).
  unfold mbind, JS_bind. destruct (m st) as [a st'|e st'|st']; simpl in *; auto.
  by apply Hf.
Qed.

Lemma preserved_modify (f : State num → State num) :
  (∀ st, P st → P (f st)) → preserved P (modify f).
Proof. intros Hf st HP. by apply Hf. Qed.

Lemma preserved_reading {A : Type} (f : State num → JS num A) :
  (∀ s, P s → preserved P (f s)) → preserved P (reading f).
Proof. intros Hf st HP. by apply Hf. Qed.

Lemma preserved_createObstacles_loop (RAPIER : JSVal) (count : nat) :
  preserved P (createObstacle RAPIER) →
  preserved P (createObstacles_loop RAPIER count).
Proof.
  intros Hone. induction count as [|count IH]; simpl.
  - apply preserved_ret.
  - apply preserved_bind; [exact Hone|intros _; exact IH].
Qed.

Lemma preserved_drainCollisionEvents (events : list (nat * nat)) :
  (∀ h1 h2, preserved P (onCollision cfg h1 h2)) →
  preserved P (drainCollisionEvents cfg events).
Proof.
  intros Hone. induction events as [|[h1 h2] events IH]; simpl.
  - apply preserved_ret.
  - apply preserved_bind; [apply Hone|intros _; exact IH].
Qed.

Lemma preserved_run (evs : list (Event (num:=num))) :
  (∀ ev, ev ∈ evs → preserved P (handle cfg ev)) →
  ∀ st, P st → P (run cfg evs st).
Proof.
  unfold run. induction evs as [|ev evs IH]; intros Hevs st HP; simpl.
  - exact HP.
  - apply IH.
    + intros ev' Hin. apply Hevs. by right.
    + apply (Hevs ev); [by left|exact HP].
Qed.
End Preserved.

Create HintDb pres.

(** Splits a goal [preserved P m] along the structure of [m]; [leaf] closes
    the goals [P (f st)] left at the elementary updates. *)
Ltac pres_leaf leaf :=
  first [ solve [leaf]
        | match goal with
          | |- context [match ?x with _ => _ end] => destruct x eqn:?; simpl
          | |- context [if ?c then _ else _] => destruct c eqn:?; simpl
          end; pres_leaf leaf ].
Ltac pres_step leaf :=
  lazymatch goal with
  | |- preserved _ (mbind _ _) => apply preserved_bind; [|intros ?]
  | |- preserved _ (mret _) => apply preserved_ret
  | |- preserved _ (throw _) => apply preserved_throw
  | |- preserved _ (modify _) =>
      apply preserved_modify; let st := fresh "st" in let HP := fresh "HP" in
      intros st HP; simpl; pres_leaf leaf
  | |- preserved _ (reading _) => apply preserved_reading; intros ? ?
  | |- preserved _ (createObstacles_loop _ _) =>
      apply preserved_createObstacles_loop
  | |- preserved _ (drainCollisionEvents _ _) =>
      apply preserved_drainCollisionEvents; intros ? ?
  | |- preserved _ (if ?c then _ else _) => destruct c eqn:?
  | |- preserved _ (match ?x with _ => _ end) => destruct x eqn:?
  | |- preserved _ (λ _, _) =>
      let st := fresh "st" in let HP := fresh "HP" in
      intros st HP; simpl; pres_leaf leaf
  | |- preserved _ (?f _ _ _ _ _ _) => first [solve [auto with pres] | unfold f]
  | |- preserved _ (?f _ _ _ _ _) => first [solve [auto with pres] | unfold f]
  | |- preserved _ (?f _ _ _ _) => first [solve [auto with pres] | unfold f]
  | |- preserved _ (?f _ _ _) => first [solve [auto with pres] | unfold f]
  | |- preserved _ (?f _ _) => first [solve [auto with pres] | unfold f]
  | |- preserved _ (?f _) => first [solve [auto with pres] | unfold f]
  | |- preserved _ ?f => first [solve [auto with pres] | unfold f]
  end.
Ltac pres_with leaf := repeat (pres_step leaf).

(** ** scene.js: obstacles *)

Section ObstacleFacts.
Context {num : Type} `{JSNumber num}.
Variable cfg : Config num.

(** One obstacle, made the way [createScene] asks for it: three random
    values are drawn, one entry is appended to each registry, and nothing
    that existed is touched. *)
Lemma createObstacle_appends (st : State num) (c r1 r2 : num) (rs : list num) :
  random st = c :: r1 :: r2 :: rs →
  ∃ st', createObstacle VNamespace st = Ok () st' ∧
    random st' = rs ∧
    obstacleBoxes st' = obstacleBoxes st ++ [length (heap st)] ∧
    physicsObjects st' = physicsObjects st ++ [length (heap st)] ∧
    heap st' = heap st ++ [mkObj (next_mesh st) (next_body st)
                                 (Some (next_collider st)) None (Some Obstacle) None] ∧
    isLoading st' = isLoading st ∧ level st' = level st ∧ points st' = points st.
Proof.
  intros Hr. unfold createObstacle, Math_random, new_mesh, createRigidBody,
    createCollider, setActiveEvents, new_object.
  js_simpl. rewrite Hr. simpl.
  eexists. split; [reflexivity|]. simpl. repeat split.
Qed.

Lemma createObstacles_loop_appends (count : nat) (st : State num) :
  3 * count ≤ length (random st) →
  ∃ st' new, createObstacles_loop VNamespace count st = Ok () st' ∧
    length new = count ∧
    obstacleBoxes st' = obstacleBoxes st ++ new ∧
    physicsObjects st' = physicsObjects st ++ new ∧
    heap st `prefix_of` heap st' ∧
    isLoading st' = isLoading st ∧ level st' = level st ∧ points st' = points st.
Proof.
  revert st. induction count as [|count IH]; intros st Hlen; simpl.
  - exists st, []. rewrite !app_nil_r. repeat split; reflexivity.
  - destruct (random st) as [|c [|r1 [|r2 rs]]] eqn:Hr; simpl in Hlen; try lia.
    destruct (createObstacle_appends st c r1 r2 rs Hr)
      as (st1 & Hone & Hrs & Hob & Hph & Hheap & Hld & Hlv & Hpt).
    destruct (IH st1) as (st' & new & Hloop & Hnew & Hob' & Hph' & Hheap' & Hld' & Hlv' & Hpt').
    { rewrite Hrs. lia. }
    exists st', (length (heap st) :: new).
    unfold mbind, JS_bind. rewrite Hone, Hloop.
    split; [reflexivity|]. split; [simpl; lia|].
    rewrite Hob', Hph', Hob, Hph, <- !app_assoc. repeat split; try congruence.
    etrans; [|exact Hheap']. rewrite Hheap. by apply prefix_app_r.
Qed.

(** [createObstacles] called with the arguments its parameter list names
    (the flags object sixth, the level seventh), as [createScene] calls it:
    [level * boxIncreasePerLevel] obstacles are appended and the earlier ones
    stay as they were. *)
Lemma createObstacles_as_declared (level : Z) (st : State num) :
  3 * Z.to_nat (level * boxIncreasePerLevel cfg) ≤ length (random st) →
  ∃ st' new, createObstacles cfg VNamespace VFlags (Some level) st = Ok () st' ∧
    Z.of_nat (length new) = Z.max 0 (level * boxIncreasePerLevel cfg) ∧
    obstacleBoxes st' = obstacleBoxes st ++ new ∧
    heap st `prefix_of` heap st'.
Proof.
  intros Hlen. unfold createObstacles. js_simpl.
  match goal with |- context [createObstacles_loop _ _ ?s] =>
    destruct (createObstacles_loop_appends
                (Z.to_nat (level * boxIncreasePerLevel cfg)) s Hlen)
      as (st' & new & Hloop & Hnew & Hob & _ & Hheap & _)
  end.
  rewrite Hloop. eexists _, new. split; [reflexivity|]. simpl.
  split; [lia|]. split; assumption.
Qed.
End ObstacleFacts.

(** ** game.js: collisions, pickups and the level-up *)

Section PickupFacts.
Context {num : Type} `{JSNumber num}.
Variable cfg : Config num.

(** [levelUp] as written: the level goes up by one, then [createObstacles]
    finds a number where it expects the flags object and throws on its first
    statement; nothing is spawned. *)
Lemma levelUp_throws (st : State num) :
  levelUp cfg st
  = Throw TypeError_write_on_primitive (set_level (level st + 1)%Z st).
Proof. reflexivity. Qed.

Lemma collectCoin_cases (st : State num) (coin : nat) (o : Obj) :
  heap st !! coin = Some o →
  collectCoin cfg coin st
  = if (points st + value cfg >=? level st * pointsToAdvance cfg)%Z
       && (level st <? maxLevel cfg)%Z
    then Throw TypeError_write_on_primitive
           (set_level (level st + 1)%Z (picked cfg coin o st))
    else Ok () (set_timeouts (timeouts st ++ [RemoveCoin coin]) (picked cfg coin o st)).
Proof.
  intros Ho. unfold collectCoin. js_simpl.
  rewrite list_lookup_alter_eq, Ho. simpl.
  destruct ((points st + value cfg >=? level st * pointsToAdvance cfg)%Z
            && (level st <? maxLevel cfg)%Z); reflexivity.
Qed.
End PickupFacts.

(** C1: from a state with [points = level * pointsToAdvance] and
    [level < maxLevel], collecting a coin raises the level by exactly one, but
    the obstacle batch of the new level is not spawned: [levelUp] passes
    [level] where [createObstacles] expects [isLoading], the callee throws a
    TypeError on its first statement, and the registries, the world and the
    timer queue are left as they were. *)
Theorem collectCoin_at_threshold_spawns_nothing
    {num : Type} `{JSNumber num} (cfg : Config num)
    (st : State num) (coin : nat) (o : Obj) :
  heap st !! coin = Some o →
  points st = (level st * pointsToAdvance cfg)%Z →
  (level st < maxLevel cfg)%Z →
  (0 ≤ value cfg)%Z →
  ∃ st', collectCoin cfg coin st = Throw TypeError_write_on_primitive st' ∧
    level st' = (level st + 1)%Z ∧
    obstacleBoxes st' = obstacleBoxes st ∧
    physicsObjects st' = physicsObjects st ∧
    bodies st' = bodies st ∧
    colliders st' = colliders st ∧
    timeouts st' = timeouts st.
Proof.
  intros Ho Hpoints Hlevel Hvalue.
  rewrite (collectCoin_cases cfg st coin o Ho).
  assert (Hup : ((points st + value cfg >=? level st * pointsToAdvance cfg)%Z
                 && (level st <? maxLevel cfg)%Z) = true).
  { apply andb_true_iff. split; [apply Z.geb_le|apply Z.ltb_lt]; lia. }
  rewrite Hup. eexists. split; [reflexivity|]. repeat split.
Qed.

Lemma collectCoin_at_threshold_spawns_nothing_witness :
  ∃ st', collectCoin CONFIG 4 Scenario.at_threshold
         = Throw TypeError_write_on_primitive st' ∧
    level st' = 2%Z ∧ obstacleBoxes st' = [2].
Proof.
  destruct (collectCoin_at_threshold_spawns_nothing (num:=Scenario.F) CONFIG
              Scenario.at_threshold 4 (mkObj 3 3 (Some 4) None (Some Coin) None))
    as (st' & Hthrow & Hlevel & Hboxes & _).
  - reflexivity.
  - reflexivity.
  - reflexivity.
  - discriminate.
  - exists st'. split; [exact Hthrow|]. split; [exact Hlevel|exact Hboxes].
Defined.

(** The scenario of the specification: the tenth coin of level 1. *)
Example tenth_coin_of_level_one :
  ∃ st', collectCoin CONFIG 4 Scenario.one_coin_short
         = Throw TypeError_write_on_primitive st' ∧
    points st' = 100%Z ∧ level st' = 2%Z ∧
    length (obstacleBoxes st') = length (obstacleBoxes Scenario.one_coin_short).
Proof. eexists. split; [vm_compute; reflexivity|]. repeat split. Qed.



(** The same pair inside a frame: the car touches the coin's solid collider,
    which [spawnCoin] never registers; the frame throws and the pickup queued
    behind it is lost, while without that pair the coin is picked up. *)
Example frame_with_unregistered_collider :
  (∃ st', animate CONFIG (Scenario.frame_with [(1, 3); (1, 4)]) Scenario.playing
          = Throw TypeError_read_of_undefined st' ∧ points st' = 50%Z) ∧
  (∃ st', animate CONFIG (Scenario.frame_with [(1, 4)]) Scenario.playing
          = Ok () st' ∧ points st' = 60%Z).
Proof.
  split; (eexists; split; [vm_compute; reflexivity|reflexivity]).
Qed.

Section DispatchFacts.
Context {num : Type} `{JSNumber num}.
Variable cfg : Config num.

Lemma find_ext (f g : nat → bool) (l : list nat) :
  (∀ x, f x = g x) → List.find f l = List.find g l.
Proof.
  intros Hfg. induction l as [|x l IH]; simpl; [reflexivity|].
  by rewrite Hfg, IH.
Qed.

(** Marking a coin collected changes no collider, so every handle resolves
    as before. *)
Lemma findByColliderHandle_picked (st : State num) (coin : nat) (o : Obj) (h : nat) :
  heap st !! coin = Some o →
  findByColliderHandle
    (set_timeouts (timeouts st ++ [RemoveCoin coin]) (picked cfg coin o st)) h
  = findByColliderHandle st h.
Proof.
  intros Ho. unfold findByColliderHandle. simpl.
  apply find_ext. intros r.
  destruct (decide (r = coin)) as [->|Hne].
  - by rewrite list_lookup_alter_eq, Ho.
  - by rewrite list_lookup_alter_ne.
Qed.

(** The dispatch on a resolved car / coin pair. *)
Lemma onCollision_car_coin (st : State num) (h1 h2 car coin : nat) (oc ok : Obj) :
  findByColliderHandle st h1 = Some car →
  findByColliderHandle st h2 = Some coin →
  heap st !! car = Some oc → heap st !! coin = Some ok →
  o_type oc = Some Car → o_type ok = Some Coin →
  onCollision cfg h1 h2 st
  = if not_collected ok then collectCoin cfg coin st else Ok () st.
Proof.
  intros H1 H2 Hc Hk Htc Htk.
  unfold onCollision, reading. rewrite H1, H2. js_simpl.
  repeat (rewrite ?Hc, ?Hk; simpl). unfold is_type.
  repeat (rewrite ?Htc, ?Htk; simpl).
  destruct (not_collected ok); reflexivity.
Qed.

Lemma onCollision_coin_car (st : State num) (h1 h2 car coin : nat) (oc ok : Obj) :
  findByColliderHandle st h1 = Some car →
  findByColliderHandle st h2 = Some coin →
  heap st !! car = Some oc → heap st !! coin = Some ok →
  o_type oc = Some Car → o_type ok = Some Coin →
  onCollision cfg h2 h1 st
  = if not_collected ok then collectCoin cfg coin st else Ok () st.
Proof.
  intros H1 H2 Hc Hk Htc Htk.
  unfold onCollision, reading. rewrite H1, H2. js_simpl.
  repeat (rewrite ?Hc, ?Hk; simpl). unfold is_type.
  repeat (rewrite ?Htc, ?Htk; simpl).
  destruct (not_collected ok); reflexivity.
Qed.
End DispatchFacts.

(** C2, as the code has it: [collectCoin] itself has no guard, the collision
    dispatch has.  For a car / coin pair whose coin is already marked
    collected the dispatch does not call [collectCoin] and leaves the whole
    state as it is, whichever way round the handles come; and when a pickup
    has returned, the same event once more in the drain changes nothing:
    no second increment of the points, no level-up. *)
Theorem collected_coin_is_skipped
    {num : Type} `{JSNumber num} (cfg : Config num)
    (st : State num) (h1 h2 car coin : nat) (oc ok : Obj) :
  findByColliderHandle st h1 = Some car →
  findByColliderHandle st h2 = Some coin →
  heap st !! car = Some oc → heap st !! coin = Some ok →
  o_type oc = Some Car → o_type ok = Some Coin →
  (o_collected ok = Some true →
   onCollision cfg h1 h2 st = Ok () st ∧ onCollision cfg h2 h1 st = Ok () st) ∧
  (∀ st', onCollision cfg h1 h2 st = Ok () st' →
          onCollision cfg h1 h2 st' = Ok () st').
Proof.
  intros H1 H2 Hc Hk Htc Htk. split.
  - intros Hcollected.
    rewrite (onCollision_car_coin cfg st h1 h2 car coin oc ok),
            (onCollision_coin_car cfg st h1 h2 car coin oc ok) by assumption.
    unfold not_collected. rewrite Hcollected. by split.
  - intros st' Hfirst.
    rewrite (onCollision_car_coin cfg st h1 h2 car coin oc ok) in Hfirst
      by assumption.
    destruct (not_collected ok) eqn:Hnot.
    + rewrite (collectCoin_cases cfg st coin ok Hk) in Hfirst.
      destruct (_ && _) in Hfirst; [discriminate|].
      injection Hfirst as <-.
      assert (Hne : car ≠ coin) by (intros ->; congruence).
      rewrite (onCollision_car_coin cfg _ h1 h2 car coin oc (mark_collected ok)).
      * reflexivity.
      * by rewrite findByColliderHandle_picked.
      * by rewrite findByColliderHandle_picked.
      * simpl. by rewrite list_lookup_alter_ne.
      * simpl. by rewrite list_lookup_alter_eq, Hk.
      * exact Htc.
      * exact Htk.
    + injection Hfirst as <-.
      rewrite (onCollision_car_coin cfg st h1 h2 car coin oc ok) by assumption.
      by rewrite Hnot.
Qed.

Lemma collected_coin_is_skipped_witness :
  onCollision CONFIG 1 4 Scenario.coin_taken = Ok () Scenario.coin_taken ∧
  onCollision CONFIG 4 1 Scenario.coin_taken = Ok () Scenario.coin_taken.
Proof.
  refine (proj1 (collected_coin_is_skipped (num:=Scenario.F) CONFIG
                   Scenario.coin_taken 1 4 1 4
                   (mkObj 1 1 (Some 1) None (Some Car) None)
                   (mkObj 3 3 (Some 4) None (Some Coin) (Some true))
                   _ _ _ _ _ _) _); reflexivity.
Defined.

(** C2, as stated, fails: [collectCoin] called on a coin whose [collected]
    flag is already set adds the coin value to the points again (50 becomes
    60), and one coin short of the threshold it raises the level again. *)
Lemma collectCoin_on_collected_coin_counts_again :
  o_collected <$> heap Scenario.coin_taken !! 4 = Some (Some true) ∧
  points Scenario.coin_taken = 50%Z ∧
  points (state_of (collectCoin CONFIG 4 Scenario.coin_taken)) = 60%Z ∧
  level (state_of (collectCoin CONFIG 4 (set_points 90 Scenario.coin_taken)))
  = (level Scenario.coin_taken + 1)%Z.
Proof. repeat split. Qed.

(** The coin records outlive the pickup: the deferred callback looks the
    registry entry up in [coins], where only the separate coin record sits,
    so it takes the entry and the body away and leaves [coins] as it is. *)
Example pickup_then_deferred_removal :
  let st := run CONFIG [Frame (Scenario.frame_with [(1, 4)]); RunTimeout]
                Scenario.playing in
  physicsObjects st = [0; 1; 2] ∧ coins st = [3] ∧ points st = 60%Z ∧
  bodies st !! 3 = None ∧ colliders st !! 4 = None ∧ timeouts st = [].
Proof. vm_compute. repeat split. Qed.

(** ** game.js: game over *)

#[local] Arguments updateCarPhysics : simpl never.
#[local] Arguments stays_over : simpl never.
#[local] Arguments timers_tracked : simpl never.
#[local] Arguments still_there : simpl never.

Section GameOverFacts.
Context {num : Type} `{JSNumber num}.
Variable cfg : Config num.

(** The forces and impulses of a frame do not move the body. *)
Lemma updateCarPhysics_translation (isOver isFalling : bool)
    (body : RigidBody num) (level : Z) (controls : Controls) :
  rb_translation <$> updateCarPhysics cfg isOver isFalling (Some body) level controls
  = Some (rb_translation body).
Proof.
  unfold updateCarPhysics.
  repeat match goal with |- context [if ?c then _ else _] => destruct c end;
    reflexivity.
Qed.

Section Over.
Variables (falling : bool) (listeners : nat) (K : gset nat) (L : option nat).

(** Entering GameOver while already over does nothing. *)
Lemma gameOver_when_over (again : bool) :
  preserved (stays_over falling listeners K L) (gameOver (num:=num) again).
Proof.
  intros st HP. unfold gameOver, reading.
  destruct HP as (Hover & HP). rewrite Hover. simpl. by split.
Qed.
#[local] Hint Resolve gameOver_when_over : pres.

Lemma onCollision_when_over (h1 h2 : nat) :
  preserved (stays_over falling listeners K L) (onCollision cfg h1 h2).
Proof. pres_with assumption. Qed.

Lemma handle_when_over (ev : Event) :
  ev ≠ Restart → preserved (stays_over falling listeners K L) (handle cfg ev).
Proof. intros Hev. destruct ev; [| | |done]; pres_with assumption. Qed.
End Over.
End GameOverFacts.

(** C4: a frame that starts with the game running and finds the car beyond
    half the ground size, in x or in z, ends with the game over and falling,
    having entered GameOver once (one restart listener registered); after it,
    whatever frames, timer ticks and deferred callbacks follow, short of a
    restart, the game stays over and falling and GameOver is not entered
    again. *)
Theorem boundary_transition_once
    {num : Type} `{JSNumber num} (cfg : Config num)
    (st : State num) (inp : FrameInput num) (body : RigidBody num)
    (evs : list Event) :
  isOver st = false →
  carBody st = Some body →
  offTheMap cfg (fi_translation inp) = true →
  Forall (λ ev, ev ≠ Restart) evs →
  let st1 := turn cfg st (Frame inp) in
  let st2 := run cfg evs st1 in
  (isOver st1 = true ∧ isFalling st1 = true ∧
   next_listener st1 = S (next_listener st) ∧
   keydown st1 = {[next_listener st]} ∪ keydown st) ∧
  (isOver st2 = true ∧ isFalling st2 = true ∧
   next_listener st2 = next_listener st1 ∧ keydown st2 = keydown st1).
Proof.
  intros Hover Hbody Hout Hevs st1 st2.
  assert (H1 : stays_over true (S (next_listener st))
                 ({[next_listener st]} ∪ keydown st)
                 (Some (next_listener st)) st1).
  { subst st1. unfold turn, handle, animate, reading. rewrite Hover. simpl.
    unfold world_step. js_simpl. rewrite Hbody. simpl.
    match goal with |- context [updateCarPhysics cfg ?o ?f (Some ?b) ?l ?c] =>
      pose proof (updateCarPhysics_translation cfg o f b l c) as Htr;
      destruct (updateCarPhysics cfg o f (Some b) l c) as [body'|];
        [|discriminate]
    end.
    simpl in Htr. injection Htr as Htr. rewrite Htr. simpl. rewrite Hout.
    unfold gameOver. js_simpl. rewrite Hover. simpl.
    destruct (coinSpawnTimer st); simpl;
      apply (preserved_drainCollisionEvents cfg (stays_over _ _ _ _)).
    all: first [intros h1 h2; apply onCollision_when_over | repeat split]. }
  split.
  - destruct H1 as (? & ? & ? & ? & ?). auto.
  - assert (H2 : stays_over true (S (next_listener st))
                   ({[next_listener st]} ∪ keydown st)
                   (Some (next_listener st)) st2).
    { subst st2. apply preserved_run; [|exact H1].
      intros ev Hin. apply handle_when_over.
      rewrite Forall_forall in Hevs. by apply Hevs. }
    destruct H1 as (? & ? & ? & ? & ?), H2 as (? & ? & ? & ? & ?).
    repeat split; congruence.
Qed.

Lemma boundary_transition_once_witness :
  isOver Scenario.playing = false ∧
  offTheMap CONFIG (fi_translation Scenario.frame_outside) = true ∧
  let st1 := turn CONFIG Scenario.playing (Frame Scenario.frame_outside) in
  let st2 := run CONFIG [Frame Scenario.frame_outside; CoinTick 0;
                         Frame Scenario.frame_outside; RunTimeout] st1 in
  isOver st2 = true ∧ isFalling st2 = true ∧ next_listener st2 = 1.
Proof.
  split; [reflexivity|]. split; [reflexivity|].
  destruct (boundary_transition_once (num:=Scenario.F) CONFIG Scenario.playing
              Scenario.frame_outside Scenario.car_rolling
              [Frame Scenario.frame_outside; CoinTick 0;
               Frame Scenario.frame_outside; RunTimeout])
    as [(_ & _ & Hfirst & _) (Hover & Hfalling & Hsame & _)].
  - reflexivity.
  - reflexivity.
  - reflexivity.
  - repeat constructor; discriminate.
  - split; [exact Hover|]. split; [exact Hfalling|].
    rewrite Hsame, Hfirst. reflexivity.
Defined.

(** ** game.js: restart *)

Section RestartFacts.
Context {num : Type} `{JSNumber num}.
Variable cfg : Config num.

Lemma bind_Ok {A B : Type} (m : JS num A) (f : A → JS num B)
    (st st1 : State num) (a : A) :
  m st = Ok a st1 → (m ≫= f) st = f a st1.
Proof. intros Hm. unfold mbind, JS_bind. by rewrite Hm. Qed.

Lemma clearInterval_Ok (id : option nat) (st : State num) :
  clearInterval id st
  = Ok () match id with
          | Some i => set_intervals (intervals st ∖ {[i]}) st
          | None => st
          end.
Proof. by destruct id. Qed.

(** [restartGame] calls [createScene] with nine arguments for its ten
    parameters: [RAPIER] lands on [isLoading] and the parameter [RAPIER] is
    undefined, so the call throws at [RAPIER.ColliderDesc], after the ground
    mesh has been added to the scene and before anything is registered. *)
Lemma rebuild_throws (st0 : State num) :
  rebuild cfg st0
  = Throw TypeError_read_of_undefined
      (set_scene ({[next_mesh st0]} ∪ scene st0)
         (set_next_mesh (S (next_mesh st0)) st0)).
Proof. reflexivity. Qed.

Lemma tracked_cleared (st : State num) :
  timers_tracked st →
  match coinSpawnTimer st with
  | Some t => intervals st ∖ {[t]}
  | None => intervals st
  end = ∅.
Proof.
  intros Htracked. apply set_eq. intros id.
  split; [|intros Hid; by apply not_elem_of_empty in Hid].
  destruct (coinSpawnTimer st) as [t|] eqn:Ht; intros Hid.
  - apply elem_of_difference in Hid as [Hid Hne].
    specialize (Htracked id Hid). rewrite Ht in Htracked.
    injection Htracked as ->. exfalso. apply Hne. by apply elem_of_singleton.
  - specialize (Htracked id Hid). congruence.
Qed.

(** The state [restartGame] hands to the construction of the new scene. *)
Lemma restartGame_teardown (st : State num) :
  ∃ st0, (restartGame cfg st = rebuild cfg st0) ∧
    points st0 = 0%Z ∧ level st0 = 1%Z ∧ isOver st0 = false ∧
    physicsObjects st0 = [] ∧ coins st0 = [] ∧ obstacleBoxes st0 = [] ∧
    scene st0 = ∅ ∧ isFalling st0 = isFalling st ∧
    coinSpawnTimer st0 = coinSpawnTimer st ∧
    intervals st0 = match coinSpawnTimer st with
                    | Some t => intervals st ∖ {[t]}
                    | None => intervals st
                    end.
Proof.
  unfold restartGame.
  match goal with |- context [mbind ?f ?m st] =>
    assert (∃ st1, m st = Ok () st1 ∧ coinSpawnTimer st1 = coinSpawnTimer st ∧
                   intervals st1 = intervals st ∧ isFalling st1 = isFalling st)
      as (st1 & H1 & Ht1 & Hi1 & Hf1)
      by (unfold reading; destruct (restartKeyListener st);
          eexists; (split; [reflexivity|]); repeat split)
  end.
  eexists. split.
  - rewrite (bind_Ok _ _ _ _ _ H1).
    erewrite bind_Ok; [|apply clearInterval_Ok].
    erewrite bind_Ok; [|reflexivity].
    reflexivity.
  - rewrite Ht1. destruct (coinSpawnTimer st); simpl; rewrite ?Hi1, ?Hf1;
      repeat split; assumption.
Qed.

(** [isFalling] is written on every entry to GameOver, and while the game
    is running neither the frame nor the physics bridge looks at it. *)
Lemma gameOver_sets_isFalling (falling : bool) (st : State num) :
  isOver st = false →
  isOver (state_of (gameOver falling st)) = true ∧
  isFalling (state_of (gameOver falling st)) = falling.
Proof.
  intros Hrunning. unfold gameOver, reading. rewrite Hrunning.
  js_simpl. by destruct (coinSpawnTimer st).
Qed.

Lemma updateCarPhysics_running (falling falling' : bool)
    (body : option (RigidBody num)) (level : Z) (controls : Controls) :
  updateCarPhysics cfg false falling body level controls
  = updateCarPhysics cfg false falling' body level controls.
Proof. reflexivity. Qed.

(** The hypothesis of the restart theorem is an invariant of the game: it
    holds while no timer runs, and every turn keeps it. *)
Lemma timers_tracked_no_timer (st : State num) :
  intervals st = ∅ → timers_tracked st.
Proof. intros Hnone id Hid. rewrite Hnone in Hid. by apply not_elem_of_empty in Hid. Qed.

Ltac tracked_leaf :=
  idtac;
  match goal with
  | HP : timers_tracked _ |- _ =>
      first [ exact HP
            | let id := fresh "id" in let Hid := fresh "Hid" in
              intros id Hid; simpl in Hid;
              apply elem_of_difference in Hid as [Hid _]; exact (HP id Hid) ]
  end.

Lemma handle_tracked (ev : Event) :
  ev ≠ Restart → preserved timers_tracked (handle cfg ev).
Proof. intros Hev. destruct ev; [| | |done]; pres_with tracked_leaf. Qed.

Lemma restart_tracked (st : State num) :
  timers_tracked st → timers_tracked (turn cfg st Restart).
Proof.
  intros Htracked.
  destruct (restartGame_teardown st) as (st0 & Heq & Hrest).
  unfold turn, handle. rewrite Heq, rebuild_throws. simpl.
  apply timers_tracked_no_timer. simpl.
  destruct Hrest as (_ & _ & _ & _ & _ & _ & _ & _ & _ & ->).
  by apply tracked_cleared.
Qed.

Lemma timers_tracked_run (evs : list Event) (st : State num) :
  timers_tracked st → timers_tracked (run cfg evs st).
Proof.
  revert st. unfold run. induction evs as [|ev evs IH]; intros st Htracked; simpl.
  - exact Htracked.
  - apply IH. destruct ev as [inp|id| |].
    + by apply (handle_tracked (Frame inp)).
    + by apply (handle_tracked (CoinTick id)).
    + by apply (handle_tracked RunTimeout).
    + by apply restart_tracked.
Qed.
End RestartFacts.

(** C5, as the code has it: in a game whose live timers are the one it
    remembers, [restartGame] hands the construction of the new scene a state
    with [points = 0], [level = 1], [isOver = false] and the registry, the
    coin and obstacle collections and the scene empty; it ends with
    [points = 0], [level = 1], [isOver = false]; every interval timer live
    before it is cancelled, and its tick does nothing afterwards.
    [isFalling] is not reset: it keeps the value it had. *)
Theorem restart_resets
    {num : Type} `{JSNumber num} (cfg : Config num) (st : State num) :
  timers_tracked st →
  let st' := turn cfg st Restart in
  (∃ st0, (restartGame cfg st = rebuild cfg st0) ∧
     points st0 = 0%Z ∧ level st0 = 1%Z ∧ isOver st0 = false ∧
     physicsObjects st0 = [] ∧ coins st0 = [] ∧ obstacleBoxes st0 = [] ∧
     scene st0 = ∅ ∧ intervals st0 = ∅) ∧
  points st' = 0%Z ∧ level st' = 1%Z ∧ isOver st' = false ∧
  isFalling st' = isFalling st ∧
  (∀ id, id ∈ intervals st →
     (id ∉ intervals st') ∧ handle cfg (CoinTick id) st' = Ok () st').
Proof.
  intros Htracked st'.
  destruct (restartGame_teardown cfg st)
    as (st0 & Heq & Hp & Hl & Ho & Hph & Hc & Hob & Hsc & Hf & Ht & Hi).
  rewrite (tracked_cleared st Htracked) in Hi.
  split; [exists st0; repeat split; assumption|].
  assert (Hst' : st' = set_scene ({[next_mesh st0]} ∪ scene st0)
                         (set_next_mesh (S (next_mesh st0)) st0)).
  { subst st'. unfold turn, handle. rewrite Heq, rebuild_throws. reflexivity. }
  clearbody st'. subst st'. simpl.
  repeat (split; [assumption|]).
  intros id Hid. rewrite Hi. split; [apply not_elem_of_empty|].
  unfold reading. simpl. rewrite Hi.
  case_bool_decide as Hb; [exfalso; revert Hb; apply not_elem_of_empty|reflexivity].
Qed.

Lemma restart_resets_witness :
  timers_tracked Scenario.playing ∧
  let st' := turn CONFIG Scenario.playing Restart in
  points st' = 0%Z ∧ level st' = 1%Z ∧ isOver st' = false ∧
  0 ∉ intervals st'.
Proof.
  assert (Htracked : timers_tracked Scenario.playing).
  { intros id Hid. simpl in Hid. apply elem_of_singleton in Hid.
    by rewrite Hid. }
  split; [exact Htracked|].
  destruct (restart_resets (num:=Scenario.F) CONFIG Scenario.playing Htracked)
    as (_ & Hpoints & Hlevel & Hover & _ & Htimers).
  split; [exact Hpoints|]. split; [exact Hlevel|]. split; [exact Hover|].
  apply Htimers. by apply elem_of_singleton.
Defined.

(** C5, as stated, fails on [isFalling]: after the car has fallen off the
    arena ([isOver] and [isFalling] both set), a restart clears [isOver] and
    leaves [isFalling] set. *)
Lemma restart_keeps_isFalling :
  isOver Scenario.fallen = true ∧ isFalling Scenario.fallen = true ∧
  isOver (turn CONFIG Scenario.fallen Restart) = false ∧
  isFalling (turn CONFIG Scenario.fallen Restart) = true ∧
  isFalling (turn CONFIG Scenario.fallen Restart) ≠ false.
Proof. vm_compute. repeat split. discriminate. Qed.

(** ** game.js: the deferred removal of a collected coin *)

Section DeferredFacts.
Context {num : Type} `{JSNumber num}.
Variable cfg : Config num.

Ltac there_leaf :=
  idtac;
  match goal with
  | HP : still_there _ _ _ _ |- _ =>
      destruct HP as (Hq & Hb & Hr & Hc); unfold still_there; simpl;
      repeat split; rewrite ?elem_of_app, ?lookup_insert_is_Some'; auto
  end.

(** Nothing a collision callback can do takes a body out of the world, an
    entry out of the registry or a callback out of the timer queue. *)
Lemma onCollision_keeps (coin body : nat) (C : list nat) (h1 h2 : nat) :
  preserved (still_there coin body C) (onCollision cfg h1 h2).
Proof. pres_with there_leaf. Qed.

Lemma indexOf_elem (x : nat) (l : list nat) :
  x ∈ l → ∃ i, indexOf x l = Some i ∧ l !! i = Some x.
Proof.
  induction l as [|y l IH]; intros Hin; [by apply elem_of_nil in Hin|].
  simpl. destruct (decide (y = x)) as [->|Hne]; [by exists 0|].
  apply elem_of_cons in Hin as [->|Hin]; [done|].
  destruct (IH Hin) as (i & Hi & Hl). exists (S i). by rewrite Hi.
Qed.

Lemma splice_out_length (x : nat) (l : list nat) :
  x ∈ l → S (length (splice_out x l)) = length l.
Proof.
  intros Hin. destruct (indexOf_elem x l Hin) as (i & Hi & Hl).
  unfold splice_out. rewrite Hi. rewrite length_delete by eauto.
  apply lookup_lt_Some in Hl. lia.
Qed.
End DeferredFacts.



(** ** game.js: spawning coins *)

Lemma list_pair_ind {A : Type} (P : list A → Prop) :
  P [] → (∀ a, P [a]) → (∀ a b l, P l → P (a :: b :: l)) → ∀ l, P l.
Proof.
  intros Hnil Hone Hstep l.
  assert (Hboth : P l ∧ ∀ a, P (a :: l)); [|exact (proj1 Hboth)].
  induction l as [|b l [IHl IHcons]]; split; auto.
Qed.

(** The guard of [spawnCoin], on any numbers. *)
Lemma spawnCoin_rejected {num : Type} `{JSNumber num} (cfg : Config num)
    (st : State num) :
  spawnRejected cfg st = true → spawnCoin cfg st = Ok () st.
Proof. intros Hg. unfold spawnCoin, reading. unfold spawnRejected in Hg. by rewrite Hg. Qed.

(** The position the loop settles on, on the real numbers. *)
Lemma sampleCoinPosition_sound (rs rs' : list R) (x z : R) :
  unit_interval rs →
  sampleCoinPosition rs = Some (x, z, rs') →
  well_placed x z ∧ unit_interval rs'.
Proof.
  induction rs as [|r1|r1 r2 rs IH] using list_pair_ind;
    intros Hunit Hs; simpl in Hs; try discriminate.
  inversion Hunit as [|? ? Hr1 Hunit']; subst.
  inversion Hunit' as [|? ? Hr2 Hunit'']; subst.
  destruct (Rltb _ _) eqn:Hlt in Hs; [by apply IH|].
  injection Hs as <- <- <-. split; [|assumption].
  unfold well_placed. repeat split; try lra.
  unfold Rltb in Hlt. destruct (Rlt_dec _ _) as [|Hge] in Hlt; [discriminate|].
  by apply Rnot_lt_le in Hge.
Qed.

(** The loop ends on the first pair far enough from the centre, whatever
    number of nearer pairs comes before it. *)
Lemma sampleCoinPosition_accepts (near : list R) (r1 r2 : R) (rest : list R) :
  Nat.Even (length near) →
  sampleCoinPosition near = None →
  (10 <= sqrt (((r1 - 1 / 2) * 80) * ((r1 - 1 / 2) * 80)
               + ((r2 - 1 / 2) * 80) * ((r2 - 1 / 2) * 80)))%R →
  sampleCoinPosition (near ++ r1 :: r2 :: rest)
  = Some (((r1 - 1 / 2) * 80)%R, ((r2 - 1 / 2) * 80)%R, rest).
Proof.
  induction near as [|a|a b near IH] using list_pair_ind; intros Heven Hnone Hfar.
  - simpl. unfold Rltb. destruct (Rlt_dec _ _) as [Hlt|]; [lra|reflexivity].
  - destruct Heven as [k Hk]. simpl in Hk. lia.
  - simpl in *. destruct (Rltb _ _); [|discriminate].
    apply IH; [|assumption..].
    destruct Heven as [k Hk]. exists (k - 1). lia.
Qed.

(** [spawnCoin] returns as soon as the values it is given hold one such
    pair. *)
Lemma spawnCoin_returns (cfg : Config R) (st : State R)
    (near : list R) (r1 r2 : R) (rest : list R) :
  spawnRejected cfg st = false →
  random st = near ++ r1 :: r2 :: rest →
  Nat.Even (length near) →
  sampleCoinPosition near = None →
  (10 <= sqrt (((r1 - 1 / 2) * 80) * ((r1 - 1 / 2) * 80)
               + ((r2 - 1 / 2) * 80) * ((r2 - 1 / 2) * 80)))%R →
  ∃ st', spawnCoin cfg st = Ok () st' ∧ random st' = rest.
Proof.
  intros Hg Hr Heven Hnone Hfar.
  unfold spawnRejected in Hg. unfold spawnCoin, reading. rewrite Hg.
  unfold randomCoinPosition, new_mesh, createRigidBody, createCollider, new_object.
  js_simpl.
  rewrite Hr, (sampleCoinPosition_accepts near r1 r2 rest Heven Hnone Hfar).
  simpl. eexists. split; reflexivity.
Qed.



(** The same loop on binary64: the pair (0.5, 0.5) puts the coin on the
    centre and is drawn again, the pair (0.75, 0.75) puts it at (20, 20). *)
Example spawnCoin_binary64 :
  ∃ st', spawnCoin CONFIG Scenario.with_random = Ok () st' ∧
    bodies st' !! 4
    = Some (mkBodyInfo false (mkVec3 (of_Z 20) (lit (1#2)) (of_Z 20))) ∧
    random st' = [].
Proof. eexists. split; [vm_compute; reflexivity|]. split; reflexivity. Qed.

(** * Further properties *)

(** ** The physics module: the keys, the cap and the damping *)

Lemma driveForce_forward_first {num : Type} `{JSNumber num} (cfg : Config num)
    (rv lf rg : bool) (forwardDir : Vec3 num) (absVel maxSpeed : num) :
  driveForce cfg (mkControls true rv lf rg false) forwardDir absVel maxSpeed
  = driveForce cfg (mkControls true false lf rg false) forwardDir absVel maxSpeed.
Proof. unfold driveForce. simpl. by destruct (absVel <? maxSpeed)%J, rv. Qed.

(** X1: the keys are resolved in a fixed order.  With the handbrake held,
    forward and reverse are ignored; with the handbrake released and forward
    held, reverse is ignored. *)
Theorem drive_keys_priority
    {num : Type} `{JSNumber num} (cfg : Config num)
    (isOver isFalling : bool) (body : option (RigidBody num)) (level : Z)
    (controls : Controls) :
  (handbrake controls = true →
   updateCarPhysics cfg isOver isFalling body level controls
   = updateCarPhysics cfg isOver isFalling body level
       (mkControls false false (steer_left controls) (steer_right controls) true)) ∧
  (handbrake controls = false → forward controls = true →
   updateCarPhysics cfg isOver isFalling body level controls
   = updateCarPhysics cfg isOver isFalling body level
       (mkControls true false (steer_left controls) (steer_right controls) false)).
Proof.
  destruct controls as [fw rv lf rg hb]. simpl. split.
  - intros ->. unfold updateCarPhysics, driveForce. reflexivity.
  - intros -> ->. unfold updateCarPhysics.
    cbn [handbrake forward reverse steer_left steer_right].
    destruct body as [b|]; [|reflexivity].
    by rewrite driveForce_forward_first.
Qed.

Lemma drive_keys_priority_witness :
  updateCarPhysics CONFIG false false (Some Scenario.car_rolling) 1
    (mkControls true true false false true)
  = updateCarPhysics CONFIG false false (Some Scenario.car_rolling) 1
      Scenario.handbrake_only.
Proof.
  exact (proj1 (drive_keys_priority (num:=Scenario.F) CONFIG false false
                  (Some Scenario.car_rolling) 1
                  (mkControls true true false false true)) eq_refl).
Defined.

Lemma driveForce_at_the_cap {num : Type} `{JSNumber num} (cfg : Config num)
    (controls : Controls) (forwardDir : Vec3 num) (absVel maxSpeed : num) :
  (absVel <? maxSpeed)%J = false →
  driveForce cfg controls forwardDir absVel maxSpeed = vec0.
Proof.
  intros Hcap. unfold driveForce. rewrite Hcap, !andb_false_r.
  by destruct (handbrake controls).
Qed.

(** X2: the speed cap.  With the handbrake released and the horizontal speed
    not below [getCarMaxSpeed(level)], a frame adds no force whatever keys
    are held: it calls [resetForces] and the body ends the frame with an
    empty accumulator.  (The hypothesis on the number model says that the
    zero vector has no length; it holds on binary64 and on the reals.) *)
Theorem no_force_at_the_cap
    {num : Type} `{JSNumber num} (cfg : Config num)
    (isOver isFalling : bool) (body : RigidBody num) (level : Z)
    (controls : Controls) :
  (vlength (num:=num) vec0 >? zero)%J = false →
  isOver && negb isFalling = false →
  handbrake controls = false →
  (vlength (mkVec3 (vx (rb_linvel body)) zero (vz (rb_linvel body)))
   <? getCarMaxSpeed cfg level)%J = false →
  ∃ body' rest,
    updateCarPhysics cfg isOver isFalling (Some body) level controls = Some body' ∧
    rb_calls body' = rb_calls body ++ ResetForces :: rest ∧
    Forall (λ c, ∀ f, c ≠ AddForce f) rest ∧
    rb_force body' = vec0.
Proof.
  intros Hzero Hgo Hb Hcap.
  unfold updateCarPhysics. rewrite Hgo, Hb.
  rewrite (driveForce_at_the_cap cfg controls _ _ _ Hcap), Hzero.
  destruct (_ && (_ >? lit (1 # 5))%J);
    (eexists _, _; split; [reflexivity|]; simpl; rewrite <- ?app_assoc; simpl;
     split; [reflexivity|]; split;
     [repeat constructor; intros; discriminate|reflexivity]).
Qed.

Lemma no_force_at_the_cap_witness :
  ∃ body' rest,
    updateCarPhysics CONFIG false false
      (Some (mkBody Scenario.F 1 vec0 (mkVec3 (of_Z 30) zero zero)
                    (mkQuat zero zero zero (of_Z 1)) vec0 []))
      1 (mkControls true false false false false) = Some body' ∧
    rb_calls body' = ResetForces :: rest ∧ rb_force body' = vec0.
Proof.
  destruct (no_force_at_the_cap (num:=Scenario.F) CONFIG false false
              (mkBody Scenario.F 1 vec0 (mkVec3 (of_Z 30) zero zero)
                      (mkQuat zero zero zero (of_Z 1)) vec0 [])
              1 (mkControls true false false false false))
    as (body' & rest & Hrun & Hcalls & _ & Hforce); try reflexivity.
  exists body', rest. split; [exact Hrun|]. split; [exact Hcalls|exact Hforce].
Defined.

(** X3: while a drive key is honoured the force piles up.  With the
    handbrake released, forward held (or reverse alone), the speed below the
    cap and a drive vector that has a length, the frame adds the drive force,
    scaled by [1 - rollingResistance], on top of what the accumulator holds,
    and does not call [resetForces]. *)
Theorem drive_force_accumulates
    {num : Type} `{JSNumber num} (cfg : Config num)
    (isOver isFalling : bool) (body : RigidBody num) (level : Z)
    (controls : Controls) :
  isOver && negb isFalling = false →
  handbrake controls = false →
  let absVel := vlength (mkVec3 (vx (rb_linvel body)) zero (vz (rb_linvel body))) in
  let forwardDir :=
    applyQuaternion (mkVec3 zero zero (of_Z (-1))) (rb_rotation body) in
  let force := driveForce cfg controls forwardDir absVel (getCarMaxSpeed cfg level) in
  let applied := multiplyScalar force (of_Z 1 - rollingResistance cfg)%J in
  (vlength force >? zero)%J = true →
  ∃ body' rest,
    updateCarPhysics cfg isOver isFalling (Some body) level controls = Some body' ∧
    rb_calls body' = rb_calls body ++ AddForce applied :: rest ∧
    Forall (λ c, c ≠ ResetForces) rest ∧
    rb_force body' = vadd (rb_force body) applied.
Proof.
  intros Hgo Hb absVel forwardDir force applied Hlen.
  unfold updateCarPhysics. rewrite Hgo, Hb.
  fold absVel forwardDir force. rewrite Hlen.
  destruct (_ && (_ >? lit (1 # 5))%J);
    (eexists _, _; split; [reflexivity|]; simpl; rewrite <- ?app_assoc; simpl;
     split; [reflexivity|]; split;
     [repeat constructor; discriminate|reflexivity]).
Qed.

Lemma drive_force_accumulates_witness :
  ∃ body' rest f,
    updateCarPhysics CONFIG false false (Some Scenario.car_rolling) 1
      (mkControls true false false false false) = Some body' ∧
    rb_calls body' = rb_calls Scenario.car_rolling ++ AddForce f :: rest ∧
    rb_force body' = vadd (rb_force Scenario.car_rolling) f.
Proof.
  destruct (drive_force_accumulates (num:=Scenario.F) CONFIG false false
              Scenario.car_rolling 1 (mkControls true false false false false))
    as (body' & rest & Hrun & Hcalls & _ & Hforce); try reflexivity.
  exists body', rest. eexists. split; [exact Hrun|]. split; [exact Hcalls|exact Hforce].
Defined.

(** X4: on the real numbers, with a positive [maxSpeed] and
    [minDampening <= maxDampening], the damping factor of a non-negative
    speed lies between the two, grows with the speed, is [minDampening] at
    rest and is [maxDampening] from [maxSpeed] on. *)
Theorem getDampingFactor_range (cfg : Config R) (speed speed' : R) :
  (0 < maxSpeed cfg)%R →
  (minDampening cfg <= maxDampening cfg)%R →
  (0 <= speed <= speed')%R →
  (minDampening cfg <= getDampingFactor cfg speed)%R ∧
  (getDampingFactor cfg speed <= getDampingFactor cfg speed')%R ∧
  (getDampingFactor cfg speed' <= maxDampening cfg)%R ∧
  getDampingFactor cfg 0%R = minDampening cfg ∧
  ((maxSpeed cfg <= speed)%R → getDampingFactor cfg speed = maxDampening cfg).
Proof.
  intros Hmax Hdamp [H0 Hle]. unfold getDampingFactor. simpl.
  set (d := (maxDampening cfg - minDampening cfg)%R).
  assert (Hd : (0 <= d)%R) by (unfold d; lra).
  assert (Ht : ∀ s, (0 <= s)%R → (0 <= Rmin (s / maxSpeed cfg) 1 <= 1)%R).
  { intros s Hs. split; [|apply Rmin_r].
    apply Rmin_glb; [|lra]. unfold Rdiv. apply Rmult_le_pos; [lra|].
    left. by apply Rinv_0_lt_compat. }
  assert (Hmono : (Rmin (speed / maxSpeed cfg) 1 <= Rmin (speed' / maxSpeed cfg) 1)%R).
  { apply Rle_min_compat_r. unfold Rdiv. apply Rmult_le_compat_r; [|lra].
    left. by apply Rinv_0_lt_compat. }
  pose proof (Ht speed H0) as [Hlo _].
  pose proof (Ht speed' ltac:(lra)) as [_ Hhi].
  repeat split.
  - nra.
  - nra.
  - unfold d in *. nra.
  - unfold Rdiv. rewrite Rmult_0_l, Rmin_left by lra. lra.
  - intros Hfast. rewrite Rmin_right; [unfold d; lra|].
    apply Rmult_le_reg_r with (maxSpeed cfg); [lra|].
    unfold Rdiv. rewrite Rmult_assoc, Rinv_l by lra. lra.
Qed.

Lemma getDampingFactor_range_witness :
  (getDampingFactor (CONFIG (num:=R)) 10%R <= getDampingFactor (CONFIG (num:=R)) 20%R)%R ∧
  getDampingFactor (CONFIG (num:=R)) 30%R = maxDampening (CONFIG (num:=R)).
Proof.
  assert (Hmax : (0 < maxSpeed (CONFIG (num:=R)))%R) by (simpl; lra).
  assert (Hdamp : (minDampening (CONFIG (num:=R)) <= maxDampening (CONFIG (num:=R)))%R)
    by (unfold CONFIG, lit; simpl; lra).
  split.
  - exact (proj1 (proj2 (getDampingFactor_range CONFIG 10%R 20%R Hmax Hdamp
                           ltac:(lra)))).
  - apply (getDampingFactor_range CONFIG 30%R 30%R Hmax Hdamp ltac:(lra)).
    simpl. lra.
Defined.

(** X5: steering needs speed.  When the horizontal speed is not above 0.2
    the frame applies no torque impulse, whatever keys are held; and when
    neither steering key is held it applies none at any speed. *)
Theorem steering_needs_speed
    {num : Type} `{JSNumber num} (cfg : Config num)
    (isOver isFalling : bool) (body : RigidBody num) (level : Z)
    (controls : Controls) :
  isOver && negb isFalling = false →
  let linVel := rb_linvel body in
  let speed := nsqrt (vx linVel * vx linVel + vz linVel * vz linVel)%J in
  (speed >? lit (1#5))%J = false ∨
  (steer_left controls = false ∧ steer_right controls = false) →
  ∃ body' new,
    updateCarPhysics cfg isOver isFalling (Some body) level controls = Some body' ∧
    rb_calls body' = rb_calls body ++ new ∧
    Forall (λ c, ∀ t, c ≠ ApplyTorqueImpulse t) new.
Proof.
  intros Hgo linVel speed Hno.
  unfold updateCarPhysics. rewrite Hgo. fold linVel speed.
  assert (Hs : (steer_left controls || steer_right controls)
               && (speed >? lit (1#5))%J = false).
  { destruct Hno as [->|[-> ->]]; [apply andb_false_r|reflexivity]. }
  rewrite Hs.
  destruct (handbrake controls);
    [destruct (_ <? lit (1 # 5))%J|];
    destruct (vlength _ >? zero)%J;
    (eexists _, _; split; [reflexivity|]; simpl; rewrite <- ?app_assoc; simpl;
     split; [reflexivity|]; repeat constructor; intros; discriminate).
Qed.

Lemma steering_needs_speed_witness :
  ∃ body' new,
    updateCarPhysics CONFIG false false (Some Scenario.car_at_rest) 1
      (mkControls true false true false false) = Some body' ∧
    rb_calls body' = new ∧
    Forall (λ c, ∀ t, c ≠ ApplyTorqueImpulse t) new.
Proof.
  destruct (steering_needs_speed (num:=Scenario.F) CONFIG false false
              Scenario.car_at_rest 1 (mkControls true false true false false))
    as (body' & new & Hrun & Hcalls & Hnone); [reflexivity|left; reflexivity|].
  exists body', new. split; [exact Hrun|]. split; [exact Hcalls|exact Hnone].
Defined.



Lemma forwardDir_upright (q : Quat R) :
  qx q = 0%R → qz q = 0%R → (qy q * qy q + qw q * qw q = 1)%R →
  let f := applyQuaternion (mkVec3 zero zero (of_Z (-1))) q in
  vy f = 0%R ∧ (vx f * vx f + vz f * vz f = 1)%R.
Proof.
  destruct q as [x y z w]. simpl. intros -> -> Hunit. split; [ring|].
  replace (_ + _)%R with ((y * y + w * w) * (y * y + w * w))%R by ring.
  rewrite Hunit. ring.
Qed.

(** X7: on the real numbers, with the car upright (a unit rotation about
    the vertical axis), the impulse that ends the frame is the drift
    damping alone: it is horizontal and has no component along the car's
    heading, so it neither speeds the car up nor brakes it. *)
Theorem drift_damping_is_lateral (cfg : Config R)
    (isOver isFalling : bool) (body : RigidBody R) (level : Z)
    (controls : Controls) :
  isOver && negb isFalling = false →
  qx (rb_rotation body) = 0%R → qz (rb_rotation body) = 0%R →
  (qy (rb_rotation body) * qy (rb_rotation body)
   + qw (rb_rotation body) * qw (rb_rotation body) = 1)%R →
  let forwardDir :=
    applyQuaternion (mkVec3 zero zero (of_Z (-1))) (rb_rotation body) in
  ∃ body' impulse,
    updateCarPhysics cfg isOver isFalling (Some body) level controls = Some body' ∧
    last (rb_calls body') = Some (ApplyImpulse impulse) ∧
    vy impulse = 0%R ∧
    vdot impulse forwardDir = 0%R.
Proof.
  intros Hgo Hx Hz Hunit forwardDir.
  destruct (forwardDir_upright (rb_rotation body) Hx Hz Hunit) as [Hfy Hf].
  fold forwardDir in Hfy, Hf.
  unfold updateCarPhysics. rewrite Hgo. fold forwardDir.
  clearbody forwardDir.
  eexists _, _. split; [reflexivity|].
  split; [simpl; apply last_snoc|].
  split; [reflexivity|].
  destruct forwardDir as [fx fy fz]. simpl in Hfy, Hf. subst fy.
  unfold vdot, vsub, multiplyScalar, zero. simpl.
  set (d := if handbrake controls then _ else _).
  set (u := vx (rb_linvel body)). set (v := vz (rb_linvel body)).
  replace (_ + _)%R
    with (- d * (fx * u + fz * v) * (1 - (fx * fx + fz * fz)))%R by ring.
  rewrite Hf. ring.
Qed.

Lemma drift_damping_is_lateral_witness :
  ∃ body' impulse,
    updateCarPhysics (CONFIG (num:=R)) false false
      (Some (mkBody R 1 vec0 (mkVec3 3 0 4)%R (mkQuat 0 0 0 1)%R vec0 []))
      1 (mkControls true false true false false) = Some body' ∧
    last (rb_calls body') = Some (ApplyImpulse impulse) ∧
    vdot impulse (applyQuaternion (mkVec3 zero zero (of_Z (-1)))
                                  (mkQuat 0 0 0 1)%R) = 0%R.
Proof.
  destruct (drift_damping_is_lateral CONFIG false false
              (mkBody R 1 vec0 (mkVec3 3 0 4)%R (mkQuat 0 0 0 1)%R vec0 [])
              1 (mkControls true false true false false))
    as (body' & impulse & Hrun & Hlast & _ & Hdot);
    [reflexivity|reflexivity|reflexivity|simpl; lra|].
  exists body', impulse. split; [exact Hrun|]. split; [exact Hlast|exact Hdot].
Defined.

(** ** controls.js: the keys *)

Section KeyFacts.
Import String.

Lemma lower_ascii_idemp (c : Ascii.ascii) :
  lower_ascii (lower_ascii c) = lower_ascii c.
Proof. by destruct c as [[] [] [] [] [] [] [] []]. Qed.

Lemma toLowerCase_idemp (s : string) : toLowerCase (toLowerCase s) = toLowerCase s.
Proof. induction s as [|c s IH]; simpl; [done|]. by rewrite lower_ascii_idemp, IH. Qed.

Lemma onKey_fields (down : bool) (key : string) (c : Controls) :
  onKey down key c =
  let k := toLowerCase key in
  mkControls (if (k =? "w")%string then down else forward c)
             (if (k =? "s")%string then down else reverse c)
             (if (k =? "a")%string then down else steer_left c)
             (if (k =? "d")%string then down else steer_right c)
             (if (k =? " ")%string then down else handbrake c).
Proof.
  unfold onKey. cbv zeta. destruct c as [fw rv lf rg hb].
  by destruct (_ =? "w")%string, (_ =? "s")%string, (_ =? "a")%string,
       (_ =? "d")%string, (_ =? " ")%string.
Qed.

(** X8: the controls follow the keys.  After any sequence of keydown and
    keyup events each of the five flags is the direction of the last event
    for its key (W, S, A, D, space, in either case), and is what it was
    when the sequence has no event for that key. *)
Theorem controls_follow_last_event (events : list KeyEvent) (c : Controls) :
  onKeys events c =
  mkControls (key_state "w" events (forward c))
             (key_state "s" events (reverse c))
             (key_state "a" events (steer_left c))
             (key_state "d" events (steer_right c))
             (key_state " " events (handbrake c)).
Proof.
  revert c. induction events as [|e events IH]; intros c.
  - by destruct c.
  - unfold onKeys in *. simpl. rewrite IH, onKey_fields. reflexivity.
Qed.

(** X9: the handlers compare the lower-cased key, so a key and its
    upper-case form act alike, and an event for any key other than the five
    leaves the controls as they are. *)
Theorem onKey_case_and_unknown (down : bool) (key : string) (c : Controls) :
  onKey down (toLowerCase key) c = onKey down key c ∧
  (known_key (toLowerCase key) = false → onKey down key c = c).
Proof.
  split.
  - unfold onKey. by rewrite toLowerCase_idemp.
  - unfold known_key. rewrite onKey_fields. cbv zeta. intros Hk.
    repeat (apply orb_false_elim in Hk as [Hk ?]).
    destruct c. simpl. by repeat match goal with H : _ = false |- _ => rewrite H; clear H end.
Qed.

Lemma onKey_case_and_unknown_witness :
  onKey true "ArrowUp" (mkControls false true false false false)
  = mkControls false true false false false.
Proof.
  exact (proj2 (onKey_case_and_unknown true "ArrowUp"
                  (mkControls false true false false false)) eq_refl).
Defined.
End KeyFacts.

(** ** The helper module *)



(** ** game.js: start-up and the two ways a game ends *)


Section EndFacts.
Context {num : Type} `{JSNumber num}.
Variable cfg : Config num.

Lemma handle_crashed (ev : Event) (st : State num) :
  isOver st = true → isFalling st = false →
  match ev with Frame _ | CoinTick _ => True | _ => False end →
  handle cfg ev st = Ok () st.
Proof.
  intros Hover Hfall Hev. destruct ev as [inp|id| |]; try done.
  - unfold handle, animate, reading. by rewrite Hover, Hfall.
  - unfold handle, reading. destruct (bool_decide _); [|reflexivity].
    unfold spawnCoin, reading. by rewrite Hover.
Qed.

#[local] Opaque updateCarPhysics.

(** The frame of a game that is over and falling: the step, the forces, and
    the collision events; the boundary check enters nothing. *)
Lemma animate_falling (inp : FrameInput num) (st : State num) (body : RigidBody num) :
  isOver st = true → isFalling st = true → carBody st = Some body →
  ∃ body', animate cfg inp st
    = drainCollisionEvents cfg (fi_events inp) (set_carBody (Some body') st).
Proof.
  intros Hover Hfall Hbody. unfold animate, reading. rewrite Hover, Hfall. simpl.
  unfold world_step. js_simpl. rewrite ?Hbody, ?Hover, ?Hfall. simpl.
  match goal with |- context [updateCarPhysics cfg true true (Some ?b) ?l ?c] =>
    destruct (updateCarPhysics_runs cfg true true b l c eq_refl) as [body' Hrun];
    rewrite Hrun
  end.
  exists body'. simpl.
  destruct (offTheMap cfg (rb_translation body')); simpl;
    unfold gameOver, reading; simpl; rewrite ?Hover; reflexivity.
Qed.

#[local] Transparent updateCarPhysics.
End EndFacts.

(** X12: after a crash into an obstacle (the game over, not falling) the
    frames and the coin timer do nothing to the game: whatever frames and
    timer ticks follow, with whatever keys and collision events, the score,
    the registries, the world, the timers and the listeners stay exactly as
    they are. *)
Theorem crash_freezes_the_game {num : Type} `{JSNumber num} (cfg : Config num)
    (evs : list Event) (st : State num) :
  isOver st = true → isFalling st = false →
  Forall (λ ev, match ev with Frame _ | CoinTick _ => True | _ => False end) evs →
  run cfg evs st = st.
Proof.
  intros Hover Hfall Hevs. unfold run.
  induction Hevs as [|ev evs Hev _ IH]; simpl; [reflexivity|].
  unfold turn at 2. by rewrite (handle_crashed cfg ev st Hover Hfall Hev).
Qed.

Lemma crash_freezes_the_game_witness :
  let crashed := set_isOver true Scenario.playing in
  run CONFIG [Frame (Scenario.frame_with [(1, 4)]); CoinTick 0;
              Frame Scenario.frame_outside] crashed = crashed.
Proof.
  apply (crash_freezes_the_game (num:=Scenario.F) CONFIG); [reflexivity|reflexivity|].
  repeat constructor.
Defined.

(** X13: a game that ended by falling off the arena still scores.  The
    frames of a falling car keep draining collision events, and [collectCoin]
    does not look at [isOver]: a car / coin event on a coin not yet collected
    adds the coin's value to the points although the game is over. *)
Theorem falling_car_still_scores {num : Type} `{JSNumber num} (cfg : Config num)
    (st : State num) (inp : FrameInput num) (body : RigidBody num)
    (h1 h2 car coin : nat) (oc ok : Obj) :
  isOver st = true → isFalling st = true → carBody st = Some body →
  fi_events inp = [(h1, h2)] →
  findByColliderHandle st h1 = Some car →
  findByColliderHandle st h2 = Some coin →
  heap st !! car = Some oc → heap st !! coin = Some ok →
  o_type oc = Some Car → o_type ok = Some Coin → not_collected ok = true →
  let st' := turn cfg st (Frame inp) in
  points st' = (points st + value cfg)%Z ∧ isOver st' = true ∧
  (heap st' !! coin = Some (mark_collected ok)).
Proof.
  intros Hover Hfall Hbody Hevs H1 H2 Hc Hk Htc Htk Hnew. simpl.
  unfold turn, handle.
  destruct (animate_falling cfg inp st body Hover Hfall Hbody) as [body' ->].
  rewrite Hevs. simpl.
  set (st1 := set_carBody (Some body') st).
  unfold mbind, JS_bind.
  rewrite (onCollision_car_coin cfg st1 h1 h2 car coin oc ok H1 H2 Hc Hk Htc Htk).
  rewrite Hnew, (collectCoin_cases cfg st1 coin ok Hk).
  destruct (_ && _); simpl; rewrite list_lookup_alter_eq, Hk, Hover; done.
Qed.

Lemma falling_car_still_scores_witness :
  points (turn CONFIG Scenario.fallen (Frame (Scenario.frame_with [(1, 4)])))
  = 60%Z.
Proof.
  apply (falling_car_still_scores (num:=Scenario.F) CONFIG Scenario.fallen
           (Scenario.frame_with [(1, 4)])
           (mkBody Scenario.F 1 (mkVec3 (of_Z 51) (lit 1) zero)
                   (mkVec3 (of_Z 3) zero zero)
                   (mkQuat zero zero zero (of_Z 1)) vec0
                   (rb_calls (default Scenario.car_rolling
                                (carBody Scenario.fallen))))
           1 4 1 4
           (mkObj 1 1 (Some 1) None (Some Car) None)
           (mkObj 3 3 (Some 4) None (Some Coin) None));
    vm_compute; reflexivity.
Defined.

(** ** game.js: what every turn keeps *)

#[local] Arguments dead_arena : simpl never.
#[local] Arguments listeners_tracked : simpl never.
#[local] Arguments score_in_range : simpl never.
#[local] Arguments coins_capped : simpl never.

Section DeadArena.
Context {num : Type} `{JSNumber num}.
Variable cfg : Config num.

Lemma empty_minus (X : gset nat) : (∅ : gset nat) ∖ X = ∅.
Proof.
  apply set_eq. intros x. rewrite elem_of_difference.
  split; [intros [Hx _]|intros Hx]; by apply not_elem_of_empty in Hx.
Qed.

Ltac dead_leaf :=
  idtac;
  match goal with
  | HP : dead_arena _ |- _ =>
      let Hi := fresh "Hi" in let Hc := fresh "Hc" in
      let Hp := fresh "Hp" in let Ho := fresh "Ho" in
      destruct HP as (Hi & Hc & Hp & Ho); unfold dead_arena; simpl;
      rewrite ?Hi, ?Hc, ?Hp, ?Ho, ?empty_minus; by repeat split
  end.

Lemma levelUp_dead : preserved dead_arena (levelUp (num:=num) cfg).
Proof. intros st HP. rewrite levelUp_throws. simpl. dead_leaf. Qed.
#[local] Hint Resolve levelUp_dead : pres.

Lemma handle_dead (ev : Event) :
  ev ≠ Restart → preserved dead_arena (handle cfg ev).
Proof.
  intros Hev. destruct ev as [inp|id| |]; [| | |done].
  - pres_with dead_leaf.
  - intros st HP. unfold handle, reading.
    destruct HP as (Hi & HP). rewrite Hi.
    rewrite bool_decide_eq_false_2 by apply not_elem_of_empty. simpl. by split.
  - pres_with dead_leaf.
Qed.

Lemma restart_dead (st : State num) :
  timers_tracked st → dead_arena (turn cfg st Restart).
Proof.
  intros Htracked.
  destruct (restartGame_teardown cfg st)
    as (st0 & Heq & _ & _ & _ & Hp & Hc & Ho & _ & _ & _ & Hi).
  unfold turn, handle. rewrite Heq, rebuild_throws. unfold dead_arena. simpl.
  rewrite Hi, Hp, Hc, Ho. split; [|done]. by apply tracked_cleared.
Qed.
End DeadArena.

(** X14: a restart leaves a dead arena.  [restartGame] throws while it
    rebuilds the scene, before it restarts the coin spawning; so after a
    restart, whatever frames, timer ticks, deferred callbacks and further
    restarts follow, no coin timer runs, no coin is ever spawned and nothing
    is registered. *)
Theorem nothing_spawns_after_restart {num : Type} `{JSNumber num}
    (cfg : Config num) (evs : list Event) (st : State num) :
  timers_tracked st →
  let st' := run cfg evs (turn cfg st Restart) in
  intervals st' = ∅ ∧ coins st' = [] ∧ physicsObjects st' = [] ∧
  obstacleBoxes st' = [].
Proof.
  intros Htracked. simpl.
  assert (Hgen : ∀ s, timers_tracked s → dead_arena s →
                      dead_arena (run cfg evs s) ).
  { unfold run. induction evs as [|ev evs' IH]; intros s Ht Hd; simpl; [exact Hd|].
    apply IH.
    - by apply (timers_tracked_run cfg [ev]).
    - destruct ev as [inp|id| |];
        [by apply handle_dead..|by apply restart_dead]. }
  apply Hgen.
  - by apply (timers_tracked_run cfg [Restart]).
  - by apply restart_dead.
Qed.

Lemma nothing_spawns_after_restart_witness :
  coins (run CONFIG [CoinTick 0; Frame (Scenario.frame_with []); CoinTick 1]
           (turn CONFIG Scenario.with_random Restart)) = [].
Proof.
  assert (Htracked : timers_tracked Scenario.with_random).
  { intros id Hid. simpl in Hid. apply elem_of_singleton in Hid.
    by rewrite Hid. }
  exact (proj1 (proj2 (nothing_spawns_after_restart (num:=Scenario.F) CONFIG
                         [CoinTick 0; Frame (Scenario.frame_with []); CoinTick 1]
                         Scenario.with_random Htracked))).
Defined.

Section TurnInvariants.
Context {num : Type} `{JSNumber num}.
Variable cfg : Config num.

(** *** The restart listener *)

Ltac listener_leaf :=
  idtac;
  match goal with
  | HP : listeners_tracked _ |- _ => exact HP
  end.

Lemma gameOver_listeners (falling : bool) :
  preserved listeners_tracked (gameOver (num:=num) falling).
Proof.
  intros st HP. unfold gameOver, reading.
  destruct (isOver st) eqn:Hover; [exact HP|].
  assert (Hnone : keydown st = ∅).
  { apply set_eq. intros l. split; [|intros Hl; by apply not_elem_of_empty in Hl].
    intros Hl. destruct (HP l Hl) as [Hover' _]. congruence. }
  js_simpl. destruct (coinSpawnTimer st); simpl;
    intros l Hl; simpl in *; rewrite Hnone, union_empty_r_L in Hl;
    apply elem_of_singleton in Hl; by subst l.
Qed.
#[local] Hint Resolve gameOver_listeners : pres.

Lemma handle_listeners (ev : Event) :
  ev ≠ Restart → preserved listeners_tracked (handle cfg ev).
Proof. intros Hev. destruct ev; [| | |done]; pres_with listener_leaf. Qed.

Lemma restartGame_listener (st : State num) :
  ∃ st0, restartGame cfg st = rebuild cfg st0 ∧
    restartKeyListener st0 = None ∧
    keydown st0 = match restartKeyListener st with
                  | Some l => keydown st ∖ {[l]}
                  | None => keydown st
                  end.
Proof.
  unfold restartGame.
  match goal with |- context [mbind ?f ?m st] =>
    assert (∃ st1, m st = Ok () st1 ∧
              restartKeyListener st1 = None ∧
              keydown st1 = match restartKeyListener st with
                            | Some l => keydown st ∖ {[l]}
                            | None => keydown st
                            end)
      as (st1 & H1 & Hl1 & Hk1)
      by (unfold reading; destruct (restartKeyListener st) eqn:Hl;
          eexists; (split; [reflexivity|]); by repeat split)
  end.
  eexists. split.
  - rewrite (bind_Ok _ _ _ _ _ H1).
    erewrite bind_Ok; [|apply clearInterval_Ok].
    erewrite bind_Ok; [|reflexivity].
    reflexivity.
  - destruct (coinSpawnTimer st1); simpl; by rewrite Hl1, Hk1.
Qed.

Lemma restart_listeners (st : State num) :
  listeners_tracked st → listeners_tracked (turn cfg st Restart).
Proof.
  intros HP.
  destruct (restartGame_listener st) as (st0 & Heq & _ & Hk).
  unfold turn, handle. rewrite Heq, rebuild_throws.
  intros l Hl. simpl in Hl. rewrite Hk in Hl. exfalso.
  destruct (restartKeyListener st) as [l'|] eqn:Hl'.
  - apply elem_of_difference in Hl as [Hl Hne].
    destruct (HP l Hl) as [_ Hsame]. apply Hne, elem_of_singleton. congruence.
  - destruct (HP l Hl) as [_ Hsame]. congruence.
Qed.

Lemma listeners_tracked_run (evs : list Event) (st : State num) :
  listeners_tracked st → listeners_tracked (run cfg evs st).
Proof.
  revert st. unfold run. induction evs as [|ev evs IH]; intros st HP; simpl.
  - exact HP.
  - apply IH. destruct ev as [inp|id| |];
      [by apply handle_listeners..|by apply restart_listeners].
Qed.

(** *** The level and the points *)

Hypothesis value_nonneg : (0 ≤ value cfg)%Z.

Ltac score_leaf :=
  idtac;
  match goal with
  | HP : score_in_range _ _ |- _ =>
      unfold score_in_range in *; simpl; lia
  end.

Lemma collectCoin_score (coin : nat) :
  preserved (score_in_range cfg) (collectCoin cfg coin).
Proof using value_nonneg.
  intros st HP. destruct (heap st !! coin) as [o|] eqn:Ho.
  - rewrite (collectCoin_cases cfg st coin o Ho).
    destruct (_ && _) eqn:Hup; simpl; [|score_leaf].
    apply andb_prop in Hup as [_ Hlt]. apply Z.ltb_lt in Hlt. score_leaf.
  - unfold collectCoin. js_simpl. rewrite list_lookup_alter_eq, Ho. simpl.
    score_leaf.
Qed.
#[local] Hint Resolve collectCoin_score : pres.

Lemma handle_score (ev : Event) :
  ev ≠ Restart → preserved (score_in_range cfg) (handle cfg ev).
Proof using value_nonneg. intros Hev. destruct ev; [| | |done]; pres_with score_leaf. Qed.

Lemma restart_score (st : State num) :
  score_in_range cfg st → score_in_range cfg (turn cfg st Restart).
Proof.
  intros HP.
  destruct (restartGame_teardown cfg st) as (st0 & Heq & Hp & Hl & _).
  unfold turn, handle. rewrite Heq, rebuild_throws.
  unfold score_in_range in *. simpl. lia.
Qed.

Lemma score_in_range_run (evs : list Event) (st : State num) :
  score_in_range cfg st → score_in_range cfg (run cfg evs st).
Proof using value_nonneg.
  revert st. unfold run. induction evs as [|ev evs IH]; intros st HP; simpl.
  - exact HP.
  - apply IH. destruct ev as [inp|id| |];
      [by apply handle_score..|by apply restart_score].
Qed.
End TurnInvariants.

(** X15: the game keeps at most one restart listener.  From a state in
    which every keydown listener is the remembered restart listener of a
    game that is over, any sequence of turns ends in such a state: while the
    game runs there is none, and when it is over there is none but the one
    [restartKeyListener] holds. *)
Theorem one_restart_listener {num : Type} `{JSNumber num} (cfg : Config num)
    (evs : list Event) (st : State num) :
  listeners_tracked st →
  let st' := run cfg evs st in
  (isOver st' = false → keydown st' = ∅) ∧
  (∀ l, l ∈ keydown st' → restartKeyListener st' = Some l).
Proof.
  intros HP. simpl. pose proof (listeners_tracked_run cfg evs st HP) as HP'.
  split.
  - intros Hrun. apply set_eq. intros l.
    split; [|intros Hl; by apply not_elem_of_empty in Hl].
    intros Hl. destruct (HP' l Hl) as [Hover _]. congruence.
  - intros l Hl. by destruct (HP' l Hl).
Qed.

Lemma one_restart_listener_witness :
  let st' := run CONFIG [Frame Scenario.frame_outside; Frame Scenario.frame_outside;
                         Restart; Frame Scenario.frame_outside] Scenario.playing in
  (isOver st' = false → keydown st' = ∅) ∧
  (∀ l, l ∈ keydown st' → restartKeyListener st' = Some l).
Proof.
  assert (HP : listeners_tracked Scenario.playing).
  { intros l Hl. simpl in Hl. by apply not_elem_of_empty in Hl. }
  exact (one_restart_listener (num:=Scenario.F) CONFIG
           [Frame Scenario.frame_outside; Frame Scenario.frame_outside;
            Restart; Frame Scenario.frame_outside] Scenario.playing HP).
Defined.

(** X16: the level stays within the configured levels and the points never
    go negative.  With a coin value that is not negative, from a state with
    [1 <= level <= maxLevel] and [0 <= points], every sequence of turns ends
    in such a state: the only increment of the level is guarded by
    [level < maxLevel]. *)
Theorem level_stays_in_range {num : Type} `{JSNumber num} (cfg : Config num)
    (evs : list Event) (st : State num) :
  (0 ≤ value cfg)%Z →
  (1 ≤ level st ≤ maxLevel cfg)%Z → (0 ≤ points st)%Z →
  let st' := run cfg evs st in
  (1 ≤ level st' ≤ maxLevel cfg)%Z ∧ (0 ≤ points st')%Z.
Proof.
  intros Hvalue Hlevel Hpoints.
  exact (score_in_range_run cfg Hvalue evs st (conj Hlevel Hpoints)).
Qed.

Lemma level_stays_in_range_witness :
  let st' := run CONFIG [Frame (Scenario.frame_with [(1, 4)]); RunTimeout;
                         Frame (Scenario.frame_with [(4, 1)])]
               Scenario.one_coin_short in
  (1 ≤ level st' ≤ 10)%Z ∧ (0 ≤ points st')%Z.
Proof.
  apply (level_stays_in_range (num:=Scenario.F) CONFIG
           [Frame (Scenario.frame_with [(1, 4)]); RunTimeout;
            Frame (Scenario.frame_with [(4, 1)])] Scenario.one_coin_short);
    simpl; lia.
Defined.

(** ** game.js: the coin records *)

Section CoinRecords.
Context {num : Type} `{JSNumber num}.
Variable cfg : Config num.

(** What a call of [spawnCoin] that passes its guard leaves behind: either
    the values of [Math.random] ran out in the placement loop, or one coin
    record and one registry entry have been appended, on two new objects. *)
Lemma spawnCoin_fields (st : State num) :
  spawnRejected cfg st = false →
  let st' := state_of (spawnCoin cfg st) in
  level st' = level st ∧ points st' = points st ∧ timeouts st' = timeouts st ∧
  isOver st' = isOver st ∧
  ((coins st' = coins st ∧ physicsObjects st' = physicsObjects st ∧
    heap st' = heap st) ∨
   (∃ c p, coins st' = coins st ++ [length (heap st)] ∧
      physicsObjects st' = physicsObjects st ++ [S (length (heap st))] ∧
      heap st' = heap st ++ [c; p])).
Proof.
  intros Hg. unfold spawnRejected in Hg. unfold spawnCoin, reading. rewrite Hg.
  unfold randomCoinPosition, new_mesh, createRigidBody, createCollider, new_object.
  js_simpl.
  destruct (sampleCoinPosition (random st)) as [[[x z] rs]|]; simpl.
  - repeat split. right. eexists _, _. rewrite length_app, <- app_assoc. simpl.
    rewrite Nat.add_1_r. by repeat split.
  - repeat split. by left.
Qed.

Hypothesis base_nonneg : (0 ≤ coinBaseCount cfg)%Z.

Ltac capped_leaf :=
  idtac;
  match goal with
  | HP : coins_capped _ _ |- _ =>
      unfold coins_capped in *; simpl; first [exact HP | nia]
  end.

Lemma spawnCoin_capped : preserved (coins_capped cfg) (spawnCoin cfg).
Proof.
  intros st HP. destruct (spawnRejected cfg st) eqn:Hg.
  - by rewrite spawnCoin_rejected.
  - destruct (spawnCoin_fields st Hg) as (Hl & _ & _ & _ & [(Hc & _)|(c & p & Hc & _)]);
      unfold coins_capped in *; rewrite Hl, Hc; [exact HP|].
    unfold spawnRejected in Hg. apply orb_false_elim in Hg as [_ Hg].
    rewrite length_app. simpl. lia.
Qed.
#[local] Hint Resolve spawnCoin_capped : pres.

Lemma splice_out_shorter (x : nat) (l : list nat) :
  length (splice_out x l) ≤ length l.
Proof.
  unfold splice_out. destruct (indexOf x l) as [i|]; [|done].
  revert i. induction l as [|y l IH]; intros [|i]; simpl; try lia.
  specialize (IH i). lia.
Qed.

Lemma removeCoin_capped (coin : nat) : preserved (coins_capped cfg) (removeCoin coin).
Proof using Type.
  pres_with ltac:(idtac; match goal with
                  | HP : coins_capped _ _ |- _ =>
                      unfold coins_capped in *; simpl; first [exact HP|
                        match goal with |- context [splice_out ?x ?l] =>
                          pose proof (splice_out_shorter x l); lia end]
                  end).
Qed.
#[local] Hint Resolve removeCoin_capped : pres.

Lemma handle_capped (ev : Event) :
  ev ≠ Restart → preserved (coins_capped cfg) (handle cfg ev).
Proof using base_nonneg.
  intros Hev. destruct ev; [| | |done]; pres_with capped_leaf.
Qed.

Lemma restart_capped (st : State num) : coins_capped cfg (turn cfg st Restart).
Proof using base_nonneg.
  destruct (restartGame_teardown cfg st) as (st0 & Heq & _ & Hl & _ & _ & Hc & _).
  unfold turn, handle. rewrite Heq, rebuild_throws.
  unfold coins_capped. simpl. rewrite Hl, Hc. simpl. lia.
Qed.

Lemma coins_capped_run (evs : list Event) (st : State num) :
  coins_capped cfg st → coins_capped cfg (run cfg evs st).
Proof using base_nonneg.
  revert st. unfold run. induction evs as [|ev evs IH]; intros st HP; simpl.
  - exact HP.
  - apply IH. destruct ev as [inp|id| |];
      [by apply handle_capped..|by apply restart_capped].
Qed.
End CoinRecords.

(** X17: the spawn limit holds throughout a game.  With a base count that
    is not negative, from a state with at most [coinBaseCount * level + 1]
    coin records, every sequence of turns ends with at most
    [coinBaseCount * level + 1] of them, counted at the level it ends in:
    [spawnCoin] adds one record only while there are no more than
    [coinBaseCount * level]. *)
Theorem coin_records_capped {num : Type} `{JSNumber num} (cfg : Config num)
    (evs : list Event) (st : State num) :
  (0 ≤ coinBaseCount cfg)%Z →
  (Z.of_nat (length (coins st)) ≤ coinBaseCount cfg * level st + 1)%Z →
  let st' := run cfg evs st in
  (Z.of_nat (length (coins st')) ≤ coinBaseCount cfg * level st' + 1)%Z.
Proof. intros Hbase Hcap. exact (coins_capped_run cfg Hbase evs st Hcap). Qed.

Lemma coin_records_capped_witness :
  let st' := run CONFIG [CoinTick 0; CoinTick 0; Frame (Scenario.frame_with [])]
               Scenario.with_random in
  (Z.of_nat (length (coins st')) ≤ 10 * level st' + 1)%Z.
Proof.
  apply (coin_records_capped (num:=Scenario.F) CONFIG
           [CoinTick 0; CoinTick 0; Frame (Scenario.frame_with [])]
           Scenario.with_random); simpl; lia.
Defined.

#[local] Arguments refs_apart : simpl never.
#[local] Arguments records_kept : simpl never.

Section RecordsKept.
Context {num : Type} `{JSNumber num}.
Variable cfg : Config num.
Variable C : list nat.

Lemma splice_out_absent (x : nat) (l : list nat) : x ∉ l → splice_out x l = l.
Proof.
  intros Hx. unfold splice_out.
  destruct (indexOf x l) as [i|] eqn:Hi; [|reflexivity].
  exfalso. apply Hx. clear Hx. revert i Hi.
  induction l as [|y l IH]; intros i Hi; simpl in Hi; [discriminate|].
  destruct (decide (y = x)) as [->|Hne]; [by left|].
  destruct (indexOf x l) as [j|]; [|discriminate]. right. by apply (IH j).
Qed.

Lemma splice_out_subset (x y : nat) (l : list nat) :
  y ∈ splice_out x l → y ∈ l.
Proof.
  unfold splice_out. destruct (indexOf x l) as [i|]; [|done].
  revert i. induction l as [|z l IH]; intros [|i]; simpl; try done.
  - intros Hy. by right.
  - rewrite !elem_of_cons. intros [->|Hy]; [by left|right; by apply (IH i)].
Qed.

Lemma findByColliderHandle_registered (st : State num) (h r : nat) :
  findByColliderHandle st h = Some r → r ∈ physicsObjects st.
Proof.
  unfold findByColliderHandle. intros Hf.
  apply List.find_some in Hf as [Hin _]. by apply list_elem_of_In.
Qed.

Ltac kept_leaf :=
  idtac;
  match goal with
  | HP : records_kept _ _ |- _ => exact HP
  end.

Lemma collectCoin_kept (st : State num) (r : nat) :
  r ∈ physicsObjects st → records_kept C st →
  records_kept C (state_of (collectCoin cfg r st)).
Proof.
  intros Hr [(Hc & Hp & Ht) Hpre].
  destruct (lookup_lt_is_Some_2 (heap st) r (Hp r Hr)) as [o Ho].
  rewrite (collectCoin_cases cfg st r o Ho).
  destruct (_ && _); unfold records_kept, refs_apart; simpl;
    rewrite length_alter.
  - split; [split; [exact Hc|split; [exact Hp|exact Ht]]|exact Hpre].
  - split; [|exact Hpre]. split; [|split].
    + intros c Hcin. destruct (Hc c Hcin) as (Hlt & Hnp & Hnt).
      split; [exact Hlt|]. split; [exact Hnp|].
      rewrite elem_of_app, list_elem_of_singleton.
      intros [Hin|[= ->]]; [by apply Hnt|by apply Hnp].
    + exact Hp.
    + intros c. rewrite elem_of_app, list_elem_of_singleton.
      intros [Hin|[= ->]]; [by apply Ht|by apply Hp].
Qed.

Lemma gameOver_kept (falling : bool) :
  preserved (records_kept C) (gameOver (num:=num) falling).
Proof. pres_with kept_leaf. Qed.

Lemma onCollision_kept (h1 h2 : nat) :
  preserved (records_kept C) (onCollision cfg h1 h2).
Proof.
  intros st HP. unfold onCollision, reading.
  destruct (findByColliderHandle st h1) as [r1|] eqn:H1; [|exact HP].
  destruct (findByColliderHandle st h2) as [r2|] eqn:H2; [|exact HP].
  apply findByColliderHandle_registered in H1, H2.
  js_simpl.
  destruct (heap st !! r1) as [o1|]; [|exact HP]. simpl.
  destruct (heap st !! r2) as [o2|]; [|exact HP]. simpl.
  destruct (is_type Car o1); simpl.
  - destruct (is_type Coin o2 && not_collected o2); [by apply collectCoin_kept|].
    destruct (is_type Obstacle o2); [by apply gameOver_kept|exact HP].
  - destruct (is_type Car o2); simpl; [|exact HP].
    destruct (is_type Coin o1 && not_collected o1); [by apply collectCoin_kept|].
    destruct (is_type Obstacle o1); [by apply gameOver_kept|exact HP].
Qed.
#[local] Hint Resolve onCollision_kept : pres.

Lemma spawnCoin_kept : preserved (records_kept C) (spawnCoin cfg).
Proof.
  intros st HP. destruct (spawnRejected cfg st) eqn:Hg.
  { by rewrite spawnCoin_rejected. }
  destruct HP as [(Hc & Hp & Ht) Hpre].
  destruct (spawnCoin_fields cfg st Hg)
    as (_ & _ & Hq & _ & [(Hcs & Hps & Hh)|(c & p & Hcs & Hps & Hh)]);
    unfold records_kept, refs_apart; rewrite Hq, Hcs, Hps, Hh.
  { split; [split; [exact Hc|split; [exact Hp|exact Ht]]|exact Hpre]. }
  rewrite length_app. simpl. split; [|by apply prefix_app_r].
  split; [|split].
  - intros r. rewrite elem_of_app, list_elem_of_singleton. intros [Hr| ->].
    + destruct (Hc r Hr) as (Hlt & Hnp & Hnt). split; [lia|]. split; [|exact Hnt].
      rewrite elem_of_app, list_elem_of_singleton. intros [Hin| ->]; [by apply Hnp|lia].
    + split; [lia|]. split.
      * rewrite elem_of_app, list_elem_of_singleton.
        intros [Hin|Heq]; [apply Hp in Hin|]; lia.
      * intros Hin. apply Ht in Hin. lia.
  - intros r. rewrite elem_of_app, list_elem_of_singleton.
    intros [Hr| ->]; [apply Hp in Hr|]; lia.
  - intros r Hr. apply Ht in Hr. lia.
Qed.
#[local] Hint Resolve spawnCoin_kept : pres.

Lemma runTimeout_kept : preserved (records_kept C) (handle cfg RunTimeout).
Proof.
  intros st HP. unfold handle, reading.
  destruct (timeouts st) as [|[r] ts] eqn:Hq; [exact HP|].
  destruct HP as [(Hc & Hp & Ht) Hpre].
  assert (Hr : r ∉ coins st).
  { intros Hin. destruct (Hc r Hin) as (_ & _ & Hnt). apply Hnt.
    rewrite Hq. by left. }
  unfold run_task, removeCoin, removeRigidBody. js_simpl.
  rewrite (splice_out_absent r (coins st) Hr).
  assert (Hkept : records_kept C
            (set_physicsObjects (splice_out r (physicsObjects st))
               (set_timeouts ts st))).
  { unfold records_kept, refs_apart. simpl. split; [|exact Hpre].
    split; [|split].
    - intros c Hcin. destruct (Hc c Hcin) as (Hlt & Hnp & Hnt).
      split; [exact Hlt|]. split.
      + intros Hin. by apply Hnp, (splice_out_subset r).
      + intros Hin. apply Hnt. rewrite Hq. by right.
    - intros c Hcin. by apply Hp, (splice_out_subset r).
    - intros c Hcin. apply Ht. rewrite Hq. by right. }
  destruct (heap st !! r); exact Hkept.
Qed.

Lemma handle_kept (ev : Event) :
  ev ≠ Restart → preserved (records_kept C) (handle cfg ev).
Proof.
  intros Hev. destruct ev as [inp|id| |]; [| | |done].
  - pres_with kept_leaf.
  - pres_with kept_leaf.
  - apply runTimeout_kept.
Qed.
End RecordsKept.

(** X18: coin records pile up.  The deferred removal looks for the registry
    entry in [coins], where it never is: the record of a coin is a second
    object.  So, short of a restart, [coins] only grows: whatever turns are
    taken, picking up coins and running their deferred removals included,
    the coin records of the start are still the first records of the end;
    collected coins keep counting against the spawn limit. *)
Theorem coin_records_pile_up {num : Type} `{JSNumber num} (cfg : Config num)
    (evs : list Event) (st : State num) :
  refs_apart st →
  Forall (λ ev, ev ≠ Restart) evs →
  coins st `prefix_of` coins (run cfg evs st).
Proof.
  intros Hrefs Hevs.
  assert (Hkept : records_kept (coins st) (run cfg evs st)); [|by destruct Hkept].
  apply preserved_run.
  - intros ev Hin. apply handle_kept. rewrite Forall_forall in Hevs. by apply Hevs.
  - by split.
Qed.

Lemma coin_records_pile_up_witness :
  [3] `prefix_of`
    coins (run CONFIG [Frame (Scenario.frame_with [(1, 4)]); RunTimeout; CoinTick 0]
             Scenario.with_random).
Proof.
  apply (coin_records_pile_up (num:=Scenario.F) CONFIG
           [Frame (Scenario.frame_with [(1, 4)]); RunTimeout; CoinTick 0]
           Scenario.with_random).
  - unfold refs_apart. simpl. split; [|split].
    + intros r Hr. apply list_elem_of_singleton in Hr as ->.
      split; [lia|]. split; [|apply not_elem_of_nil].
      rewrite !elem_of_cons, elem_of_nil. intros [|[|[|[|]]]]; done.
    + intros r. rewrite !elem_of_cons, elem_of_nil.
      intros [->|[->|[->|[->|[]]]]]; lia.
    + intros r Hr. by apply elem_of_nil in Hr.
  - repeat constructor; discriminate.
Defined.

(** ** The physics module: [removePhysicsObjects] *)

#[local] Arguments world_shrunk : simpl never.
#[local] Arguments out_of_world : simpl never.

Section RemovalFacts.
Context {num : Type} `{JSNumber num}.
Implicit Types st : State num.

Lemma world_shrunk_refl st : world_shrunk st st.
Proof. unfold world_shrunk. by destruct st. Qed.

Lemma world_shrunk_trans st1 st2 st3 :
  world_shrunk st1 st2 → world_shrunk st2 st3 → world_shrunk st1 st3.
Proof.
  intros (Hb & Hc & Heq) (Hb' & Hc' & Heq'). unfold world_shrunk.
  split; [by etrans|]. split; [by etrans|].
  rewrite Heq' at 1. rewrite Heq. reflexivity.
Qed.

Lemma world_shrunk_heap st st' : world_shrunk st st' → heap st' = heap st.
Proof. intros (_ & _ & ->). reflexivity. Qed.

Lemma out_of_world_shrunk (o : Obj) st st' :
  world_shrunk st st' → out_of_world o st → out_of_world o st'.
Proof.
  intros (Hb & Hc & _) (Hbody & Hcol & Hatt). split; [|split].
  - by eapply lookup_weaken_None.
  - intros c Hoc. eapply lookup_weaken_None; [by apply Hcol|exact Hc].
  - intros c ci Hci. apply (Hatt c). by eapply lookup_weaken.
Qed.

Lemma removeCollider_shrinks (c : nat) st :
  ∃ st', removeCollider c st = Ok () st' ∧ world_shrunk st st' ∧
    colliders st' !! c = None.
Proof.
  eexists. split; [reflexivity|]. split.
  - unfold world_shrunk. simpl. split; [done|]. split; [apply delete_subseteq|].
    by destruct st.
  - simpl. apply lookup_delete_eq.
Qed.

Lemma removeRigidBody_shrinks (b : nat) st :
  ∃ st', removeRigidBody b st = Ok () st' ∧ world_shrunk st st' ∧
    bodies st' !! b = None ∧
    (∀ c ci, colliders st' !! c = Some ci → ci_parent ci ≠ b).
Proof.
  eexists. split; [reflexivity|]. split; [|split].
  - unfold world_shrunk. simpl. split; [apply delete_subseteq|].
    split; [apply map_filter_subseteq|]. by destruct st.
  - simpl. apply lookup_delete_eq.
  - simpl. intros c ci Hci. by apply map_lookup_filter_Some in Hci as [_ Hne].
Qed.

Lemma removeObject_removes (r : nat) (o : Obj) st :
  heap st !! r = Some o →
  ∃ st', removeObject r st = Ok () st' ∧ world_shrunk st st' ∧ out_of_world o st'.
Proof.
  intros Ho. unfold removeObject.
  rewrite (bind_Ok _ _ st st o) by (unfold deref; by rewrite Ho).
  assert (∃ st1, match o_collider o with
                 | Some c => removeCollider c
                 | None => mret ()
                 end st = Ok () st1 ∧ world_shrunk st st1 ∧
            (∀ c, o_collider o = Some c → colliders st1 !! c = None))
    as (st1 & H1 & Hs1 & Hc1).
  { destruct (o_collider o) as [c|].
    - destruct (removeCollider_shrinks c st) as (st1 & H1 & Hs1 & Hc1).
      exists st1. split; [exact H1|]. split; [exact Hs1|]. by intros ? [= <-].
    - exists st. split; [reflexivity|]. split; [apply world_shrunk_refl|done]. }
  rewrite (bind_Ok _ _ _ _ _ H1).
  destruct (removeRigidBody_shrinks (o_body o) st1) as (st2 & H2 & Hs2 & Hb2 & Ha2).
  exists st2. split; [exact H2|]. split; [by eapply world_shrunk_trans|].
  split; [exact Hb2|]. split; [|exact Ha2].
  intros c Hoc. destruct Hs2 as (_ & Hsub & _).
  eapply lookup_weaken_None; [by apply Hc1|exact Hsub].
Qed.

Lemma forEach_removeObject (l : list nat) st :
  (∀ r, r ∈ l → is_Some (heap st !! r)) →
  ∃ st', forEach removeObject l st = Ok () st' ∧ world_shrunk st st' ∧
    (∀ r o, r ∈ l → heap st !! r = Some o → out_of_world o st').
Proof.
  revert st. induction l as [|r l IH]; intros st Hrefs.
  - exists st. split; [reflexivity|]. split; [apply world_shrunk_refl|].
    intros r o Hr. by apply elem_of_nil in Hr.
  - destruct (Hrefs r) as [o Ho]; [by left|].
    destruct (removeObject_removes r o st Ho) as (st1 & H1 & Hs1 & Ho1).
    destruct (IH st1) as (st2 & H2 & Hs2 & Ho2).
    { intros r' Hr'. rewrite (world_shrunk_heap _ _ Hs1). apply Hrefs. by right. }
    exists st2. simpl. rewrite (bind_Ok _ _ _ _ _ H1).
    split; [exact H2|]. split; [by eapply world_shrunk_trans|].
    intros r' o' Hr' Ho'. apply elem_of_cons in Hr' as [->|Hr'].
    + assert (o' = o) as -> by congruence. by eapply out_of_world_shrunk.
    + apply (Ho2 r'); [exact Hr'|]. by rewrite (world_shrunk_heap _ _ Hs1).
Qed.

Lemma forEach_removeCoinSensor (l : list nat) st :
  (∀ r, r ∈ l → is_Some (heap st !! r)) →
  ∃ st', forEach removeCoinSensor l st = Ok () st' ∧ world_shrunk st st'.
Proof.
  revert st. induction l as [|r l IH]; intros st Hrefs.
  - exists st. split; [reflexivity|apply world_shrunk_refl].
  - destruct (Hrefs r) as [o Ho]; [by left|].
    assert (∃ st1, removeCoinSensor r st = Ok () st1 ∧ world_shrunk st st1)
      as (st1 & H1 & Hs1).
    { unfold removeCoinSensor.
      rewrite (bind_Ok _ _ st st o) by (unfold deref; by rewrite Ho).
      destruct (o_sensor o) as [s|]; [destruct (not_collected o)|].
      - destruct (removeCollider_shrinks s st) as (st1 & H1 & Hs1 & _). eauto.
      - exists st. split; [reflexivity|apply world_shrunk_refl].
      - exists st. split; [reflexivity|apply world_shrunk_refl]. }
    destruct (IH st1) as (st2 & H2 & Hs2).
    { intros r' Hr'. rewrite (world_shrunk_heap _ _ Hs1). apply Hrefs. by right. }
    exists st2. simpl. rewrite (bind_Ok _ _ _ _ _ H1).
    split; [exact H2|by eapply world_shrunk_trans].
Qed.
End RemovalFacts.

(** X19: [removePhysicsObjects] empties the world, not the game.  Called
    with a world, on arrays whose references have their objects, it returns
    having removed from the world the body of every registered object, its
    collider and every collider attached to its body, the unregistered ones
    included; the arrays [physicsObjects] and [coins], the objects and the
    scene are left as they were, so every entry now refers to a body that is
    gone.  Called without a world it does nothing. *)
Theorem removePhysicsObjects_empties_the_world {num : Type} `{JSNumber num}
    (st : State num) :
  (∀ r, r ∈ physicsObjects st → is_Some (heap st !! r)) →
  (∀ r, r ∈ coins st → is_Some (heap st !! r)) →
  removePhysicsObjects false st = Ok () st ∧
  ∃ st', removePhysicsObjects true st = Ok () st' ∧
    (∀ r o, r ∈ physicsObjects st → heap st !! r = Some o →
       bodies st' !! o_body o = None ∧
       (∀ c, o_collider o = Some c → colliders st' !! c = None) ∧
       (∀ c ci, colliders st' !! c = Some ci → ci_parent ci ≠ o_body o)) ∧
    physicsObjects st' = physicsObjects st ∧ coins st' = coins st ∧
    heap st' = heap st ∧ scene st' = scene st.
Proof.
  intros Hreg Hcoins. split; [reflexivity|].
  destruct (forEach_removeObject (physicsObjects st) st Hreg)
    as (st1 & H1 & Hs1 & Ho1).
  destruct (forEach_removeCoinSensor (coins st) st1) as (st2 & H2 & Hs2).
  { intros r Hr. rewrite (world_shrunk_heap _ _ Hs1). by apply Hcoins. }
  exists st2. split.
  - unfold removePhysicsObjects.
    erewrite bind_Ok; [|exact H1]. unfold reading.
    destruct Hs1 as (_ & _ & Heq1). rewrite <- H2, Heq1. reflexivity.
  - split.
    + intros r o Hr Ho. by eapply out_of_world_shrunk, Ho1.
    + pose proof (world_shrunk_trans _ _ _ Hs1 Hs2) as (_ & _ & ->).
      by repeat split.
Qed.

Lemma removePhysicsObjects_empties_the_world_witness :
  ∃ st', removePhysicsObjects true Scenario.playing = Ok () st' ∧
    bodies st' !! 3 = None ∧
    (∀ c ci, colliders st' !! c = Some ci → ci_parent ci ≠ 3) ∧
    physicsObjects st' = [0; 1; 2; 4].
Proof.
  destruct (removePhysicsObjects_empties_the_world (num:=Scenario.F)
              Scenario.playing) as (_ & st' & Hrun & Hgone & Hreg & _).
  - intros r. simpl. rewrite !elem_of_cons, elem_of_nil.
    intros [->|[->|[->|[->|[]]]]]; by eexists.
  - intros r. simpl. rewrite list_elem_of_singleton. intros ->. by eexists.
  - exists st'. split; [exact Hrun|].
    destruct (Hgone 4 (mkObj 3 3 (Some 4) None (Some Coin) None))
      as (Hbody & _ & Hatt); [simpl; rewrite !elem_of_cons; tauto|reflexivity|].
    split; [exact Hbody|]. split; [exact Hatt|exact Hreg].
Defined.

(** ** scene.js: the obstacles and the scene, called as declared *)

(** X20: where an obstacle can be.  On the real numbers, with values of
    [Math.random] in [0, 1), [createObstacles]'s loop body creates a fixed
    body at height 0.5 anywhere on the 100-unit square, and a solid collider
    with collision events attached to it.  Unlike [spawnCoin] it keeps no
    distance from the centre: the two values 1/2 put the obstacle at (0, 0),
    where [createScene] puts the car. *)
Theorem createObstacle_placement (st : State R) (c r1 r2 : R) (rs : list R) :
  random st = c :: r1 :: r2 :: rs →
  (0 <= r1 < 1)%R → (0 <= r2 < 1)%R →
  ∃ st' x z,
    createObstacle VNamespace st = Ok () st' ∧
    bodies st' = <[next_body st := mkBodyInfo true (mkVec3 x (1 / 2)%R z)]> (bodies st) ∧
    colliders st'
    = <[next_collider st := mkCollider (next_body st) false true]> (colliders st) ∧
    (-50 <= x < 50)%R ∧ (-50 <= z < 50)%R ∧
    (r1 = (1 / 2)%R → r2 = (1 / 2)%R → x = 0%R ∧ z = 0%R).
Proof.
  intros Hr Hr1 Hr2.
  unfold createObstacle, Math_random, new_mesh, createRigidBody,
    createCollider, setActiveEvents, new_object.
  js_simpl. rewrite Hr. simpl.
  eexists _, _, _. split; [reflexivity|]. simpl. split; [reflexivity|].
  split.
  - apply map_eq. intros k. destruct (decide (k = next_collider st)) as [->|Hne].
    + by rewrite lookup_alter_eq, !lookup_insert_eq.
    + by rewrite lookup_alter_ne, !lookup_insert_ne.
  - repeat split; try lra; intros -> ->; lra.
Qed.

Lemma createObstacle_placement_witness :
  ∃ st',
    createObstacle VNamespace (set_random [0; 1 / 2; 1 / 2]%R Scenario.real_start)
    = Ok () st' ∧
    bodies st' !! 0 = Some (mkBodyInfo true (mkVec3 0 (1 / 2) 0)%R).
Proof.
  destruct (createObstacle_placement
              (set_random [0; 1 / 2; 1 / 2]%R Scenario.real_start)
              0%R (1 / 2)%R (1 / 2)%R [] eq_refl)
    as (st' & x & z & Hrun & Hbodies & _ & _ & _ & Hcentre); [lra|lra|].
  exists st'. split; [exact Hrun|].
  destruct Hcentre as [-> ->]; [reflexivity|reflexivity|].
  rewrite Hbodies. simpl. by rewrite lookup_insert_eq.
Defined.

Section SceneFacts.
Context {num : Type} `{JSNumber num}.
Variable cfg : Config num.

(** What a batch of [count] obstacles adds to a state. *)
Lemma createObstacles_loop_batch (count : nat) (st : State num) :
  3 * count ≤ length (random st) →
  ∃ st', createObstacles_loop VNamespace count st = Ok () st' ∧
    physicsObjects st' = physicsObjects st ++ seq (length (heap st)) count ∧
    obstacleBoxes st' = obstacleBoxes st ++ seq (length (heap st)) count ∧
    (∀ i, i < count → ∃ pos,
       heap st' !! (length (heap st) + i)
       = Some (mkObj (next_mesh st + i) (next_body st + i)
                     (Some (next_collider st + i)) None (Some Obstacle) None) ∧
       bodies st' !! (next_body st + i) = Some (mkBodyInfo true pos) ∧
       colliders st' !! (next_collider st + i)
       = Some (mkCollider (next_body st + i) false true)) ∧
    (∀ k, k < length (heap st) → heap st' !! k = heap st !! k) ∧
    (∀ k, k < next_body st → bodies st' !! k = bodies st !! k) ∧
    (∀ k, k < next_collider st → colliders st' !! k = colliders st !! k) ∧
    length (heap st') = length (heap st) + count ∧
    next_mesh st' = next_mesh st + count ∧
    next_body st' = next_body st + count ∧
    next_collider st' = next_collider st + count ∧
    isLoading st' = isLoading st ∧ coins st' = coins st ∧
    level st' = level st ∧ points st' = points st ∧
    scene st ⊆ scene st'.
Proof.
  revert st. induction count as [|count IH]; intros st Hlen.
  - exists st. simpl. rewrite !app_nil_r, !Nat.add_0_r.
    split; [reflexivity|]. repeat split; try done. intros i Hi. lia.
  - destruct (random st) as [|c [|r1 [|r2 rs]]] eqn:Hr; simpl in Hlen; try lia.
    assert (∃ st1, createObstacle VNamespace st = Ok () st1 ∧
              random st1 = rs ∧
              physicsObjects st1 = physicsObjects st ++ [length (heap st)] ∧
              obstacleBoxes st1 = obstacleBoxes st ++ [length (heap st)] ∧
              heap st1 = heap st ++ [mkObj (next_mesh st) (next_body st)
                                       (Some (next_collider st)) None
                                       (Some Obstacle) None] ∧
              (∃ pos, bodies st1 = <[next_body st := mkBodyInfo true pos]> (bodies st)) ∧
              colliders st1 !! next_collider st
              = Some (mkCollider (next_body st) false true) ∧
              (∀ k, k < next_collider st → colliders st1 !! k = colliders st !! k) ∧
              next_mesh st1 = S (next_mesh st) ∧
              next_body st1 = S (next_body st) ∧
              next_collider st1 = S (next_collider st) ∧
              isLoading st1 = isLoading st ∧ coins st1 = coins st ∧
              level st1 = level st ∧ points st1 = points st ∧
              scene st ⊆ scene st1)
      as (st1 & H1 & Hrs & Hph & Hob & Hheap & (pos & Hbodies) & Hcol & Hcols &
          Hnm & Hnb & Hnc & Hld & Hco & Hlv & Hpt & Hsc).
    { unfold createObstacle, Math_random, new_mesh, createRigidBody,
        createCollider, setActiveEvents, new_object.
      js_simpl. rewrite Hr. simpl.
      eexists. split; [reflexivity|]. simpl.
      repeat split; try done.
      - by eexists.
      - by rewrite lookup_alter_eq, lookup_insert_eq.
      - intros k Hk. rewrite lookup_alter_ne, lookup_insert_ne by lia. done.
      - apply union_subseteq_r. }
    destruct (IH st1) as (st' & Hloop & Hph' & Hob' & Hnew & Hheap' & Hbodies' &
                          Hcols' & Hlen' & Hnm' & Hnb' & Hnc' & Hld' & Hco' &
                          Hlv' & Hpt' & Hsc').
    { rewrite Hrs. lia. }
    assert (Hl1 : length (heap st1) = S (length (heap st))).
    { rewrite Hheap, length_app. simpl. lia. }
    exists st'. simpl. rewrite (bind_Ok _ _ _ _ _ H1).
    split; [exact Hloop|].
    split; [rewrite Hph', Hph, Hl1, <- app_assoc; reflexivity|].
    split; [rewrite Hob', Hob, Hl1, <- app_assoc; reflexivity|].
    split.
    { intros [|i] Hi.
      - exists pos. rewrite !Nat.add_0_r. split; [|split].
        + rewrite Hheap', Hheap by lia.
          rewrite lookup_app_r, Nat.sub_diag by lia. reflexivity.
        + rewrite Hbodies', Hbodies by lia. by rewrite lookup_insert_eq.
        + rewrite Hcols' by lia. exact Hcol.
      - destruct (Hnew i) as (pos' & Ho & Hb & Hc); [lia|].
        exists pos'. rewrite Hl1, Hnm, Hnb, Hnc in *.
        replace (length (heap st) + S i) with (S (length (heap st)) + i) by lia.
        replace (next_mesh st + S i) with (S (next_mesh st) + i) by lia.
        replace (next_body st + S i) with (S (next_body st) + i) by lia.
        replace (next_collider st + S i) with (S (next_collider st) + i) by lia.
        by repeat split. }
    split.
    { intros k Hk. rewrite Hheap', Hheap by lia. by rewrite lookup_app_l. }
    split.
    { intros k Hk. rewrite Hbodies', Hbodies by lia. by rewrite lookup_insert_ne by lia. }
    split.
    { intros k Hk. rewrite Hcols' by lia. by apply Hcols. }
    rewrite Hlen', Hnm', Hnb', Hnc', Hl1, Hnm, Hnb, Hnc, Hld', Hco', Hlv', Hpt'.
    repeat split; try lia; try done. by etrans.
Qed.
End SceneFacts.

(** X21: [createObstacles] called the way its parameter list is declared
    (the flags object sixth, the level seventh).  With
    [n = level * boxIncreasePerLevel] obstacles to make (none when that is
    not positive) and three values of [Math.random] for each, it returns
    having appended [n] new objects, the same ones in the same order, to
    [physicsObjects] and to [obstacleBoxes]; each is an obstacle with a
    fixed body and a collider with collision events of its own; the objects,
    bodies and colliders that were there are untouched, the coins too, and
    the [obstacles] flag is back to false. *)
Theorem createObstacles_adds_a_batch {num : Type} `{JSNumber num}
    (cfg : Config num) (level : Z) (st : State num) :
  let n := Z.to_nat (level * boxIncreasePerLevel cfg) in
  3 * n ≤ length (random st) →
  ∃ st', createObstacles cfg VNamespace VFlags (Some level) st = Ok () st' ∧
    physicsObjects st' = physicsObjects st ++ seq (length (heap st)) n ∧
    obstacleBoxes st' = obstacleBoxes st ++ seq (length (heap st)) n ∧
    (∀ i, i < n → ∃ pos,
       heap st' !! (length (heap st) + i)
       = Some (mkObj (next_mesh st + i) (next_body st + i)
                     (Some (next_collider st + i)) None (Some Obstacle) None) ∧
       bodies st' !! (next_body st + i) = Some (mkBodyInfo true pos) ∧
       colliders st' !! (next_collider st + i)
       = Some (mkCollider (next_body st + i) false true)) ∧
    (∀ k, k < length (heap st) → heap st' !! k = heap st !! k) ∧
    (∀ k, k < next_body st → bodies st' !! k = bodies st !! k) ∧
    (∀ k, k < next_collider st → colliders st' !! k = colliders st !! k) ∧
    coins st' = coins st ∧
    isLoading st' = set_flag_of f_obstacles false (isLoading st).
Proof.
  intros n Hlen. unfold createObstacles. cbn [default].
  fold n.
  set (st0 := set_isLoading (set_flag_of f_obstacles true (isLoading st)) st).
  destruct (createObstacles_loop_batch n st0 Hlen)
    as (st1 & Hloop & Hph & Hob & Hnew & Hheap & Hbodies & Hcols & _ & _ & _ & _ &
        Hld & Hco & _).
  erewrite bind_Ok; [|reflexivity]. fold st0.
  erewrite bind_Ok; [|exact Hloop].
  eexists. split; [reflexivity|]. simpl.
  repeat split; try assumption. by rewrite Hld.
Qed.

Lemma createObstacles_adds_a_batch_witness :
  ∃ st', createObstacles (CONFIG (num:=R)) VNamespace VFlags (Some 1%Z)
           (set_random (replicate 30 (1 / 4)%R) Scenario.real_start) = Ok () st' ∧
    physicsObjects st' = seq 0 10 ∧ obstacleBoxes st' = seq 0 10 ∧
    ld_obstacles (isLoading st') = false.
Proof.
  destruct (createObstacles_adds_a_batch (num:=R) CONFIG 1
              (set_random (replicate 30 (1 / 4)%R) Scenario.real_start))
    as (st' & Hrun & Hph & Hob & _ & _ & _ & _ & _ & Hld); [vm_compute; lia|].
  exists st'. split; [exact Hrun|]. split; [exact Hph|]. split; [exact Hob|].
  by rewrite Hld.
Defined.

(** Runs the elementary steps of a construction on a state given field by
    field, leaving the calls of [createObstacles] as they are. *)
Ltac scene_eval :=
  lazy beta iota zeta delta [
    mbind JS_bind mret JS_ret modify reading throw set_flag
    rapier_member new_mesh scene_add createRigidBody createCollider
    setActiveEvents new_object createBoundaryBox set_flag_of points
    level physicsObjects coins obstacleBoxes coinSpawnTimer
    restartKeyListener carBody isOver isFalling heap bodies colliders
    next_body next_collider scene next_mesh intervals next_timer
    timeouts keydown next_listener random isLoading  set_points
    set_level set_physicsObjects set_coins set_obstacleBoxes
    set_coinSpawnTimer set_restartKeyListener set_carBody set_isOver
    set_isFalling set_heap set_bodies set_colliders set_next_body
    set_next_collider set_scene set_next_mesh set_intervals
    set_next_timer set_timeouts set_keydown set_next_listener set_random
    set_isLoading ].

(** X22: [createScene] called the way its parameter list is declared (the
    flags object ninth, RAPIER tenth), with three values of [Math.random]
    for each obstacle of the level.  It returns the level it was given and a
    dynamic car body at (0, 1, 0); it registers the ground first, the car
    second and then the obstacles of the level, the ground on a fixed body
    sunk by its thickness, the car with collision events; and it returns
    with the [level] and [car] flags still set, so that [gameIsLoading]
    holds until the model loader clears them. *)
Theorem createScene_as_declared {num : Type} `{JSNumber num}
    (cfg : Config num) (level : Z) (st : State num) :
  let n := Z.to_nat (level * boxIncreasePerLevel cfg) in
  let first := length (heap st) in
  3 * n ≤ length (random st) →
  ∃ st', createScene cfg level VFlags VNamespace st
         = Ok (new_car_body (S (next_body st)) (mkVec3 zero (lit 1) zero), level) st' ∧
    physicsObjects st'
    = physicsObjects st ++ [first; S first] ++ seq (S (S first)) n ∧
    obstacleBoxes st' = obstacleBoxes st ++ seq (S (S first)) n ∧
    heap st' !! first
    = Some (mkObj (next_mesh st) (next_body st) (Some (next_collider st))
                  None (Some Ground) None) ∧
    heap st' !! S first
    = Some (mkObj (S (S (next_mesh st))) (S (next_body st))
                  (Some (S (next_collider st))) None (Some Car) None) ∧
    bodies st' !! next_body st
    = Some (mkBodyInfo true (mkVec3 zero (- lit (1#10))%J zero)) ∧
    bodies st' !! S (next_body st)
    = Some (mkBodyInfo false (mkVec3 zero (lit 1) zero)) ∧
    colliders st' !! S (next_collider st)
    = Some (mkCollider (S (next_body st)) false true) ∧
    coins st' = coins st ∧
    gameIsLoading (isLoading st') = true.
Proof.
  intros n first Hlen. destruct st. unfold createScene.
  scene_eval.
  match goal with |- context [createObstacles cfg _ _ _ ?s] => set (st0 := s) end.
  destruct (createObstacles_adds_a_batch cfg level st0)
    as (st1 & Hobst & Hph & Hob & _ & Hheap & Hbodies & Hcols & Hco & Hld).
  { exact Hlen. }
  rewrite Hobst. clear Hobst. destruct st1.
  cbn [physicsObjects obstacleBoxes heap bodies colliders coins isLoading]
    in Hph, Hob, Hheap, Hbodies, Hcols, Hco, Hld.
  scene_eval.
  eexists. split; [reflexivity|].
  assert (Hl0 : length (heap st0) = S (S first)).
  { subst st0 first. simpl. rewrite !length_app. simpl. lia. }
  rewrite Hl0 in *. subst st0 first. simpl in *.
  split; [rewrite Hph, length_app, <- !app_assoc; simpl; by rewrite Nat.add_1_r|].
  split; [by rewrite Hob|].
  split.
  { rewrite Hheap by lia. rewrite <- app_assoc. by rewrite lookup_app_r, Nat.sub_diag. }
  split.
  { rewrite Hheap by lia.
    rewrite lookup_app_r; rewrite length_app; simpl; [|lia].
    match goal with |- [_] !! ?k = _ => replace k with 0 by lia end. reflexivity. }
  split.
  { rewrite Hbodies by lia. by rewrite lookup_insert_ne, lookup_insert_eq by lia. }
  split.
  { rewrite Hbodies by lia. by rewrite lookup_insert_eq. }
  split.
  { rewrite Hcols by lia. by rewrite lookup_alter_eq, lookup_insert_eq. }
  split; [by rewrite Hco|].
  rewrite Hld. reflexivity.
Qed.

Lemma createScene_as_declared_witness :
  ∃ st', createScene (CONFIG (num:=R)) 1 VFlags VNamespace
           (set_random (replicate 30 (1 / 4)%R) Scenario.real_start)
         = Ok (new_car_body 1 (mkVec3 zero (lit 1) zero), 1%Z) st' ∧
    physicsObjects st' = seq 0 12 ∧
    gameIsLoading (isLoading st') = true.
Proof.
  destruct (createScene_as_declared (num:=R) CONFIG 1%Z
              (set_random (replicate 30 (1 / 4)%R) Scenario.real_start))
    as (st' & Hrun & Hph & _ & _ & _ & _ & _ & _ & _ & Hld); [vm_compute; lia|].
  exists st'. split; [exact Hrun|]. split; [exact Hph|exact Hld].
Defined.

(** ** game.js: the colliders of a coin *)

Section CoinColliders.
Context {num : Type} `{JSNumber num}.
Variable cfg : Config num.

Lemma find_none_app {A : Type} (f : A → bool) (l l' : list A) :
  (∀ x, x ∈ l → f x = false) → List.find f (l ++ l') = List.find f l'.
Proof.
  induction l as [|y l IH]; intros Hl; simpl; [reflexivity|].
  rewrite (Hl y) by (by left). apply IH. intros x Hx. apply Hl. by right.
Qed.
Lemma findByColliderHandle_pushed (st st' : State num) (c p : Obj) (h : nat) :
  physicsObjects st' = physicsObjects st ++ [S (length (heap st))] →
  heap st' = heap st ++ [c; p] →
  (∀ r, r ∈ physicsObjects st →
     ∃ o, heap st !! r = Some o ∧ ∀ k, o_collider o = Some k → k < next_collider st) →
  next_collider st ≤ h →
  findByColliderHandle st' h
  = if bool_decide (o_collider p = Some h) then Some (S (length (heap st))) else None.
Proof.
  intros Hph Hheap Hreg Hh. unfold findByColliderHandle.
  rewrite Hph, Hheap, find_none_app.
  - simpl. rewrite lookup_app_r by lia.
    replace (S (length (heap st)) - length (heap st)) with 1 by lia. simpl.
    by destruct (bool_decide _).
  - intros r Hr. destruct (Hreg r Hr) as (o & Ho & Hc).
    rewrite (lookup_app_l_Some _ _ _ _ Ho).
    apply bool_decide_eq_false_2. intros Heq. apply Hc in Heq. lia.
Qed.
End CoinColliders.

(** X23: a coin has a collider the registry does not know.  [spawnCoin]
    attaches two colliders to the coin's body, a solid one and the pickup
    sensor, and registers the sensor only.  In a registry whose colliders
    have handles the world has given out, once [spawnCoin] has placed a
    coin, the sensor's handle resolves to the new entry and the solid
    collider's handle to nothing; a collision event that names the solid
    collider makes the callback throw. *)
Theorem spawnCoin_registers_only_the_sensor {num : Type} `{JSNumber num}
    (cfg : Config num) (st : State num) (x z : num) (rs : list num) :
  spawnRejected cfg st = false →
  sampleCoinPosition (random st) = Some (x, z, rs) →
  (∀ r, r ∈ physicsObjects st →
     ∃ o, heap st !! r = Some o ∧ ∀ c, o_collider o = Some c → c < next_collider st) →
  ∃ st', spawnCoin cfg st = Ok () st' ∧
    colliders st' !! next_collider st = Some (mkCollider (next_body st) false false) ∧
    colliders st' !! S (next_collider st) = Some (mkCollider (next_body st) true true) ∧
    findByColliderHandle st' (S (next_collider st)) = Some (S (length (heap st))) ∧
    findByColliderHandle st' (next_collider st) = None ∧
    (∀ other, onCollision cfg (next_collider st) other st'
              = Throw TypeError_read_of_undefined st').
Proof.
  intros Hg Hpos Hreg.
  assert (∃ st', spawnCoin cfg st = Ok () st' ∧
            physicsObjects st' = physicsObjects st ++ [S (length (heap st))] ∧
            heap st' = heap st ++
              [mkObj (next_mesh st) (next_body st) None
                     (Some (S (next_collider st))) None (Some false);
               mkObj (next_mesh st) (next_body st)
                     (Some (S (next_collider st))) None (Some Coin) None] ∧
            colliders st'
            = <[S (next_collider st) := mkCollider (next_body st) true true]>
                (<[next_collider st := mkCollider (next_body st) false false]>
                   (colliders st)))
    as (st' & Hrun & Hph & Hheap & Hcol).
  { unfold spawnRejected in Hg. unfold spawnCoin, reading. rewrite Hg.
    unfold randomCoinPosition, new_mesh, createRigidBody, createCollider, new_object.
    js_simpl. rewrite Hpos. simpl.
    eexists. split; [reflexivity|]. simpl.
    rewrite length_app, <- app_assoc, Nat.add_1_r. by repeat split. }
  pose proof (λ h, findByColliderHandle_pushed st st' _ _ h Hph Hheap Hreg) as Hfind.
  simpl in Hfind.
  exists st'. split; [exact Hrun|]. rewrite Hcol.
  split; [by rewrite lookup_insert_ne, lookup_insert_eq by lia|].
  split; [by rewrite lookup_insert_eq|].
  split; [rewrite Hfind by lia; by rewrite bool_decide_eq_true_2|].
  assert (Hnone : findByColliderHandle st' (next_collider st) = None).
  { rewrite Hfind by lia. case_bool_decide as Heq; [|reflexivity].
    injection Heq as Heq. lia. }
  split; [exact Hnone|].
  intros other. unfold onCollision, reading. by rewrite Hnone.
Qed.

Lemma spawnCoin_registers_only_the_sensor_witness :
  ∃ st', spawnCoin CONFIG Scenario.with_random = Ok () st' ∧
    findByColliderHandle st' 6 = Some 6 ∧
    findByColliderHandle st' 5 = None.
Proof.
  destruct (spawnCoin_registers_only_the_sensor (num:=Scenario.F) CONFIG
              Scenario.with_random (of_Z 20) (of_Z 20) [])
    as (st' & Hrun & _ & _ & Hsensor & Hsolid & _).
  - reflexivity.
  - vm_compute. reflexivity.
  - intros r. simpl. rewrite !elem_of_cons, elem_of_nil.
    intros [->|[->|[->|[->|[]]]]]; eexists; (split; [reflexivity|]);
      simpl; intros k [= <-]; lia.
  - exists st'. split; [exact Hrun|]. split; [exact Hsensor|exact Hsolid].
Defined.

(** ** scene.js: the tyre tracks *)

Section TrackFacts.
Context {num : Type} `{JSNumber num}.

Lemma fadeOldTracks_loop_shorter (l : list (Track num)) (scene : gset nat) :
  length (fadeOldTracks_loop l scene).1 ≤ length l.
Proof.
  revert scene. induction l as [|t l IH]; intros scene; simpl; [lia|].
  destruct (_ <? _)%J.
  - specialize (IH (scene ∖ {[tr_line t]})). lia.
  - specialize (IH scene). destruct (fadeOldTracks_loop l scene). simpl in *. lia.
Qed.

Lemma fadeOldTracks_loop_lines (l : list (Track num)) (scene : gset nat) :
  (tr_line <$> (fadeOldTracks_loop l scene).1) ⊆ tr_line <$> l ∧
  (fadeOldTracks_loop l scene).2 ⊆ scene ∧
  ∀ line, line ∈ (fadeOldTracks_loop l scene).2 →
    line ∈ tr_line <$> l → line ∈ tr_line <$> (fadeOldTracks_loop l scene).1.
Proof.
  revert scene. induction l as [|t l IH]; intros scene; simpl.
  { split; [done|]. split; [done|]. intros line _ Hin. exact Hin. }
  destruct (_ <? _)%J.
  - destruct (IH (scene ∖ {[tr_line t]})) as (Hsub & Hsc & Hkeep).
    split; [|split].
    + intros x Hx. right. by apply Hsub.
    + etrans; [exact Hsc|]. apply subseteq_difference_l. reflexivity.
    + intros line Hline Hin. apply Hkeep; [exact Hline|].
      apply elem_of_cons in Hin as [->|Hin]; [|exact Hin].
      apply Hsc, elem_of_difference in Hline as [_ Hne].
      exfalso. apply Hne. by apply elem_of_singleton.
  - destruct (IH scene) as (Hsub & Hsc & Hkeep).
    destruct (fadeOldTracks_loop l scene) as [l' scene']. simpl in *.
    split; [|split].
    + intros x Hx. apply elem_of_cons in Hx as [->|Hx]; [by left|right; by apply Hsub].
    + exact Hsc.
    + intros line Hline Hin. apply elem_of_cons in Hin as [->|Hin]; [by left|].
      right. by apply Hkeep.
Qed.

Lemma removeOldest_bounded (l : list (Track num)) (scene : gset nat) :
  (Z.of_nat (length (removeOldest l scene).1) ≤ maxTracks)%Z.
Proof.
  revert scene. induction l as [|t l IH]; intros scene.
  - simpl. unfold maxTracks. lia.
  - cbn [removeOldest]. destruct (Z.of_nat (length (t :: l)) >? maxTracks)%Z eqn:Hlen.
    + apply IH.
    + rewrite Z.gtb_ltb in Hlen. apply Z.ltb_ge in Hlen. exact Hlen.
Qed.

Lemma removeOldest_lines (l : list (Track num)) (scene : gset nat) :
  (removeOldest l scene).2 ⊆ scene ∧
  (tr_line <$> (removeOldest l scene).1) ⊆ tr_line <$> l ∧
  ∀ line, line ∈ (removeOldest l scene).2 →
    line ∈ tr_line <$> l → line ∈ tr_line <$> (removeOldest l scene).1.
Proof.
  revert scene. induction l as [|t l IH]; intros scene.
  { simpl. split; [done|]. split; [done|]. intros line _ Hin. exact Hin. }
  cbn [removeOldest]. destruct (Z.of_nat (length (t :: l)) >? maxTracks)%Z.
  - destruct (IH (scene ∖ {[tr_line t]})) as (Hsc & Hsub & Hkeep).
    split; [|split].
    + etrans; [exact Hsc|]. apply subseteq_difference_l. reflexivity.
    + intros x Hx. rewrite fmap_cons. right. by apply Hsub.
    + intros line Hline Hin. apply Hkeep; [exact Hline|].
      rewrite fmap_cons in Hin. apply elem_of_cons in Hin as [->|Hin]; [|exact Hin].
      apply Hsc, elem_of_difference in Hline as [_ Hne].
      exfalso. apply Hne. by apply elem_of_singleton.
  - simpl. split; [done|]. split; [done|]. intros line _ Hin. exact Hin.
Qed.

Lemma createTrackSegment_no_stray (a b : Vec3 num) (left : bool) (ts : TireTracks num) :
  no_stray_line ts → no_stray_line (createTrackSegment a b left ts).
Proof.
  intros Hts line. unfold createTrackSegment. simpl.
  rewrite fmap_app, elem_of_app, elem_of_union, elem_of_singleton. simpl.
  intros [->|Hline]; [right; by left|left; by apply Hts].
Qed.

Lemma wheelTrack_no_stray (last : option (Vec3 num)) (wheelPos : Vec3 num)
    (left : bool) (set_last : Vec3 num → TireTracks num → TireTracks num)
    (ts : TireTracks num) :
  (∀ p ts, tracks (set_last p ts) = tracks ts ∧ tt_scene (set_last p ts) = tt_scene ts) →
  no_stray_line ts → no_stray_line (wheelTrack last wheelPos left set_last ts).
Proof.
  intros Hset Hts. unfold wheelTrack.
  assert (Hkeep : ∀ p ts, no_stray_line ts → no_stray_line (set_last p ts)).
  { intros p ts0 H0 line. destruct (Hset p ts0) as [-> ->]. apply H0. }
  destruct last as [lastPos|]; [destruct (_ <? _)%J|]; auto.
  by apply Hkeep, createTrackSegment_no_stray.
Qed.
End TrackFacts.

(** X24: the tyre tracks are bounded and leave nothing behind.  Whatever
    the state of the system and wherever the car is, [addTrack] returns
    with at most [maxTracks] (1000) segments; and if every line the system
    had in the scene belonged to a segment it kept, that is still so: a
    segment that is shifted out or has faded has its line removed from the
    scene. *)
Theorem addTrack_bounded_no_stray {num : Type} `{JSNumber num}
    (Math_sin Math_cos : num → num) (position : Vec3 num) (rotation_y : num)
    (ts : TireTracks num) :
  let ts' := addTrack Math_sin Math_cos position rotation_y ts in
  (Z.of_nat (length (tracks ts')) ≤ 1000)%Z ∧
  (no_stray_line ts → no_stray_line ts').
Proof.
  simpl. unfold addTrack. cbv zeta.
  set (ts1 := wheelTrack _ _ true _ ts).
  set (ts2 := wheelTrack _ _ false _ ts1).
  pose proof (removeOldest_bounded (tracks ts2) (tt_scene ts2)) as Hb.
  pose proof (removeOldest_lines (tracks ts2) (tt_scene ts2)) as (Hsc & Hsub & Hkeep).
  destruct (removeOldest (tracks ts2) (tt_scene ts2)) as [l scene] eqn:Hrem.
  simpl in *. unfold fadeOldTracks. simpl.
  pose proof (fadeOldTracks_loop_shorter l scene) as Hlen.
  pose proof (fadeOldTracks_loop_lines l scene) as (Hsub' & Hsc' & Hkeep').
  destruct (fadeOldTracks_loop l scene) as [l' scene'] eqn:Hfade.
  simpl in *. split; [unfold maxTracks in Hb; lia|].
  intros Hts.
  assert (H2 : no_stray_line ts2).
  { apply wheelTrack_no_stray; [by intros ? []|].
    apply wheelTrack_no_stray; [by intros ? []|exact Hts]. }
  intros line Hline. simpl in *.
  apply Hkeep'; [exact Hline|]. apply Hkeep; [by apply Hsc'|].
  apply H2. by apply Hsc, Hsc'.
Qed.

Lemma addTrack_bounded_no_stray_witness :
  let empty := mkTireTracks (num:=Scenario.F) [] None None ∅ 0 in
  let ts' := addTrack (λ _, zero) (λ _, of_Z 1) (mkVec3 zero (lit 1) zero) zero empty in
  (Z.of_nat (length (tracks ts')) ≤ 1000)%Z ∧ no_stray_line ts'.
Proof.
  split.
  - apply (addTrack_bounded_no_stray (num:=Scenario.F)).
  - apply (addTrack_bounded_no_stray (num:=Scenario.F)).
    intros line Hline. simpl in Hline. by apply not_elem_of_empty in Hline.
Defined.

Section TrackFrames.
Context {num : Type} `{JSNumber num}.
Variables Math_sin Math_cos : num → num.

Lemma fadeOldTracks_no_new (ts : TireTracks num) :
  tt_next_line (fadeOldTracks ts) = tt_next_line ts ∧
  lastLeftPos (fadeOldTracks ts) = lastLeftPos ts ∧
  lastRightPos (fadeOldTracks ts) = lastRightPos ts ∧
  length (tracks (fadeOldTracks ts)) ≤ length (tracks ts).
Proof.
  unfold fadeOldTracks.
  pose proof (fadeOldTracks_loop_shorter (tracks ts) (tt_scene ts)) as Hlen.
  destruct (fadeOldTracks_loop _ _). by repeat split.
Qed.

Lemma removeOldest_shorter (l : list (Track num)) (scene : gset nat) :
  length (removeOldest l scene).1 ≤ length l.
Proof.
  revert scene. induction l as [|t l IH]; intros scene; [done|].
  cbn [removeOldest]. destruct (_ >? _)%Z; [|done].
  specialize (IH (scene ∖ {[tr_line t]})). simpl. lia.
Qed.

(** [addTrack] on a system that has forgotten both wheel positions: the
    positions are taken, no segment is made. *)
Lemma addTrack_first (position : Vec3 num) (rotation_y : num) (ts : TireTracks num) :
  lastLeftPos ts = None → lastRightPos ts = None →
  let ts' := addTrack Math_sin Math_cos position rotation_y ts in
  tt_next_line ts' = tt_next_line ts ∧
  length (tracks ts') ≤ length (tracks ts) ∧
  is_Some (lastLeftPos ts') ∧ is_Some (lastRightPos ts').
Proof.
  intros Hl Hr. cbv zeta. unfold addTrack. cbv zeta. rewrite Hl.
  cbn [wheelTrack lastRightPos set_lastLeftPos]. rewrite Hr.
  cbn [wheelTrack tracks tt_scene tt_next_line lastLeftPos lastRightPos
       set_lastRightPos set_lastLeftPos].
  pose proof (removeOldest_shorter (tracks ts) (tt_scene ts)) as Hlen.
  destruct (removeOldest (tracks ts) (tt_scene ts)) as [l scene].
  match goal with |- context [fadeOldTracks ?t] =>
    destruct (fadeOldTracks_no_new t) as (-> & -> & -> & Hlen')
  end.
  simpl in *. repeat split; try lia; by eexists.
Qed.
End TrackFrames.

(** X25: skid marks need the handbrake.  A frame of [updateCarPhysics] in
    which the handbrake is not held makes no track segment: it forgets both
    wheel positions before anything else, so that [update] can at most take
    the positions anew; the number of segments does not grow and no line is
    created. *)
Theorem no_tracks_without_handbrake {num : Type} `{JSNumber num}
    (cfg : Config num) (Math_sin Math_cos : num → num)
    (isOver isFalling : bool) (carBody : option (RigidBody num)) (level : Z)
    (controls : Controls) (position : Vec3 num) (rotation_y : num)
    (ts : TireTracks num) :
  handbrake controls = false →
  let ts' := updateCarPhysics_tracks cfg Math_sin Math_cos isOver isFalling
               carBody level controls position rotation_y ts in
  tt_next_line ts' = tt_next_line ts ∧
  length (tracks ts') ≤ length (tracks ts).
Proof.
  intros Hb. simpl. unfold updateCarPhysics_tracks.
  destruct carBody as [body|]; [|done].
  destruct (isOver && negb isFalling); [done|].
  rewrite Hb. cbn [negb].
  destruct (updateCarPhysics _ _ _ _ _ _) as [body'|]; [|done].
  unfold tracks_update. destruct (_ <? _)%J; [|done].
  destruct (addTrack_first Math_sin Math_cos position rotation_y
              (set_lastRightPos None (set_lastLeftPos None ts)) eq_refl eq_refl)
    as (Hn & Hlen & _).
  split; [exact Hn|exact Hlen].
Qed.

Lemma no_tracks_without_handbrake_witness :
  let skidding :=
    mkTireTracks (num:=Scenario.F)
      [mkTrack 0 (vec0, vec0) true 5 (lit (7#10))]
      (Some vec0) (Some vec0) {[0]} 1 in
  tt_next_line
    (updateCarPhysics_tracks CONFIG (λ _, zero) (λ _, of_Z 1) false false
       (Some Scenario.car_rolling) 1 Scenario.no_keys
       (mkVec3 (of_Z 5) (lit 1) zero) zero skidding) = 1.
Proof.
  exact (proj1 (no_tracks_without_handbrake (num:=Scenario.F) CONFIG
                  (λ _, zero) (λ _, of_Z 1) false false
                  (Some Scenario.car_rolling) 1 Scenario.no_keys
                  (mkVec3 (of_Z 5) (lit 1) zero) zero
                  (mkTireTracks [mkTrack 0 (vec0, vec0) true 5 (lit (7#10))]
                     (Some vec0) (Some vec0) {[0]} 1) eq_refl)).
Defined.

(** *** How long a segment lasts *)

Lemma fadedOpacity_real (age : Z) :
  (fadedOpacity (num:=R) age <? lit (1#20))%J = bool_decide (929 ≤ age)%Z.
Proof.
  unfold fadedOpacity, Math_max, maxTracks, lit. simpl.
  unfold Rltb. destruct (Rlt_dec _ _) as [Hlt|Hge]; symmetry.
  - apply bool_decide_eq_true_2.
    destruct (Z_lt_le_dec age 929) as [Hyoung|]; [exfalso|done].
    assert (Hage : (IZR age <= 928)%R) by (apply IZR_le; lia).
    revert Hlt. unfold Rmin. destruct (Rle_dec _ _); lra.
  - apply bool_decide_eq_false_2. intros Hold. apply Hge.
    assert (Hage : (929 <= IZR age)%R) by (by apply IZR_le).
    unfold Rmin. destruct (Rle_dec _ _); lra.
Qed.

Lemma fadeOldTracks_loop_ages {num : Type} `{JSNumber num}
    (old : Z → bool) (l : list (Track num)) (scene : gset nat) :
  (∀ t, t ∈ l → (fadedOpacity (tr_age t + 1) <? lit (1#20))%J = old (tr_age t + 1)%Z) →
  tr_age <$> (fadeOldTracks_loop l scene).1
  = filter (λ a, old a = false) ((λ t, tr_age t + 1)%Z <$> l).
Proof.
  revert scene. induction l as [|t l IH]; intros scene Hl; [reflexivity|].
  simpl. rewrite (Hl t) by (by left). rewrite filter_cons.
  destruct (old (tr_age t + 1)%Z) eqn:Hold.
  - rewrite decide_False by done. apply IH. intros t' Ht'. apply Hl. by right.
  - rewrite decide_True by done.
    specialize (IH scene). destruct (fadeOldTracks_loop l scene). simpl in *.
    f_equal. apply IH. intros t' Ht'. apply Hl. by right.
Qed.

(** X26: a track segment lasts 928 fades.  On the real numbers
    [fadeOldTracks] ages every segment by one and keeps exactly the ones
    whose new age is at most 928, in their order: the opacity
    [0.7 - age / 1000 * 0.7] falls below 0.05 from age 929 on. *)
Theorem fadeOldTracks_lifetime (ts : TireTracks R) :
  tr_age <$> tracks (fadeOldTracks ts)
  = filter (λ age, age ≤ 928)%Z ((λ t, tr_age t + 1)%Z <$> tracks ts).
Proof.
  unfold fadeOldTracks.
  pose proof (fadeOldTracks_loop_ages (λ a, bool_decide (929 ≤ a)%Z)
                (tracks ts) (tt_scene ts)) as Hages.
  destruct (fadeOldTracks_loop (tracks ts) (tt_scene ts)) as [l scene].
  simpl in *. rewrite Hages by (intros t _; apply fadedOpacity_real).
  apply list_filter_iff. intros a. rewrite bool_decide_eq_false. lia.
Qed.

Lemma fadedOpacity_binary64 (age : Z) :
  (1 ≤ age ≤ 1000)%Z →
  (fadedOpacity (num:=F64.float) age <? lit (1#20))%J = bool_decide (929 ≤ age)%Z.
Proof.
  intros Hage.
  assert (Htable : forallb (λ a, Bool.eqb (fadedOpacity (num:=F64.float) a <? lit (1#20))%J
                                          (929 <=? a)%Z) (seqZ 1 1000) = true)
    by (vm_compute; reflexivity).
  rewrite forallb_forall in Htable.
  specialize (Htable age). rewrite <- list_elem_of_In, elem_of_seqZ in Htable.
  specialize (Htable ltac:(lia)). apply Bool.eqb_prop in Htable. rewrite Htable.
  destruct (929 <=? age)%Z eqn:Hle; symmetry.
  - apply bool_decide_eq_true_2. by apply Z.leb_le.
  - apply bool_decide_eq_false_2. by apply Z.leb_gt in Hle; lia.
Qed.

(** X27: the same lifetime in binary64, which is what the browser computes,
    for the ages the system can hold: when every segment is between 0 and
    999 fades old, [fadeOldTracks] ages every segment by one and keeps
    exactly the ones whose new age is at most 928; all ages then lie between
    1 and 928, so the hypothesis holds again at the next call. *)
Theorem fadeOldTracks_lifetime_binary64 (ts : TireTracks F64.float) :
  Forall (λ t, 0 ≤ tr_age t < 1000)%Z (tracks ts) →
  tr_age <$> tracks (fadeOldTracks ts)
  = filter (λ age, age ≤ 928)%Z ((λ t, tr_age t + 1)%Z <$> tracks ts) ∧
  Forall (λ t, 1 ≤ tr_age t ≤ 928)%Z (tracks (fadeOldTracks ts)).
Proof.
  intros Hages. rewrite Forall_forall in Hages.
  assert (Heq : tr_age <$> tracks (fadeOldTracks ts)
                = filter (λ age, age ≤ 928)%Z ((λ t, tr_age t + 1)%Z <$> tracks ts)).
  { unfold fadeOldTracks.
    pose proof (fadeOldTracks_loop_ages (λ a, bool_decide (929 ≤ a)%Z)
                  (tracks ts) (tt_scene ts)) as Hloop.
    destruct (fadeOldTracks_loop (tracks ts) (tt_scene ts)) as [l scene].
    simpl in *. rewrite Hloop.
    - apply list_filter_iff. intros a. rewrite bool_decide_eq_false. lia.
    - intros t Ht. apply fadedOpacity_binary64. specialize (Hages t Ht). lia. }
  split; [exact Heq|].
  apply Forall_forall. intros t Ht.
  assert (Hin : tr_age t ∈ tr_age <$> tracks (fadeOldTracks ts))
    by (by apply list_elem_of_fmap_2).
  rewrite Heq in Hin. apply list_elem_of_filter in Hin as [Hle Hin].
  apply list_elem_of_fmap in Hin as (t0 & Hage & Ht0).
  specialize (Hages t0 Ht0). lia.
Qed.

Lemma fadeOldTracks_lifetime_binary64_witness :
  tr_age <$> tracks (fadeOldTracks
    (mkTireTracks (num:=Scenario.F)
       [mkTrack 0 (vec0, vec0) true 928 (lit (1#20));
        mkTrack 1 (vec0, vec0) false 927 (lit (1#20))]
       None None {[0; 1]} 2)) = [928%Z].
Proof.
  refine (proj1 (fadeOldTracks_lifetime_binary64
    (mkTireTracks (num:=Scenario.F)
       [mkTrack 0 (vec0, vec0) true 928 (lit (1#20));
        mkTrack 1 (vec0, vec0) false 927 (lit (1#20))]
       None None {[0; 1]} 2) _)).
  repeat constructor; simpl; lia.
Defined.
